(** * Reading Buddy: the session controller of [src/App.tsx]

    A shallow embedding of the React component [App] and of the types of
    [src/types.ts].  The component's state cells ([useState]), its timer
    reference ([useRef]) and the browser's pending timers form one record;
    every handler of the component is a program in a small asynchronous
    monad whose [Await] nodes are the calls to the collaborators (recorder,
    Gemini service, clipboard, share sheet).  Running a handler against the
    collaborators' answers gives the states that get rendered while it is
    suspended, the requests it issued, and the state it leaves behind.
    The event loop takes clicks, timers and settled promises one at a
    time and keeps the handlers suspended at an [await]. *)

From Stdlib Require Import ZArith NArith String Ascii DecimalString Bool Lia.
From stdpp Require Import base list.

Local Open Scope Z_scope.

(** ** JavaScript strings

    A JavaScript string is a sequence of UTF-16 code units; [length] of the
    list is the string's [.length]. *)

Module JS.

Definition jsstring : Type := list N.

(** An ASCII literal of the source as a sequence of code units. *)
Definition lit (s : string) : jsstring :=
  map N_of_ascii (list_ascii_of_string s).

(** The line feed written [\n] in the source's template literals. *)
Definition LF : jsstring := [10%N].

(** ECMAScript [WhiteSpace] and [LineTerminator] code points, the ones
    [String.prototype.trim] strips.  All of them are in the basic plane, so
    a test on code units is exact. *)
Definition isWhiteSpace (c : N) : bool :=
  (   (c =? 0x0009) || (c =? 0x000A) || (c =? 0x000B) || (c =? 0x000C)
   || (c =? 0x000D) || (c =? 0x0020) || (c =? 0x00A0) || (c =? 0x1680)
   || ((0x2000 <=? c) && (c <=? 0x200A))
   || (c =? 0x2028) || (c =? 0x2029) || (c =? 0x202F) || (c =? 0x205F)
   || (c =? 0x3000) || (c =? 0xFEFF))%N.

Fixpoint trimStart (s : jsstring) : jsstring :=
  match s with
  | c :: s' => if isWhiteSpace c then trimStart s' else s
  | [] => []
  end.

Definition trimEnd (s : jsstring) : jsstring := rev (trimStart (rev s)).

(** [s.trim()] *)
Definition trim (s : jsstring) : jsstring := trimEnd (trimStart s).

(** [s.length] *)
Definition length (s : jsstring) : Z := Z.of_nat (List.length s).

(** Truthiness of a string: only the empty string is falsy. *)
Definition truthy (s : jsstring) : bool :=
  match s with [] => false | _ :: _ => true end.

(** [a || b] on strings. *)
Definition or_else (a b : jsstring) : jsstring := if truthy a then a else b.

(** [`${n}`] for an integer [n]: its decimal digits, with a minus sign
    when negative. *)
Definition ofNumber (n : Z) : jsstring :=
  match n with
  | Z0 => lit "0"
  | Zpos p => lit (NilEmpty.string_of_uint (Pos.to_uint p))
  | Zneg p => lit "-" ++ lit (NilEmpty.string_of_uint (Pos.to_uint p))
  end.

(** [a.length] and [a[i]] of an array, for a number [i] that is an
    integer: a negative or too large index reads [undefined]. *)
Definition alength {A} (a : list A) : Z := Z.of_nat (List.length a).

Definition get {A} (a : list A) (i : Z) : option A :=
  if i <? 0 then None else a !! Z.to_nat i.

End JS.

Import JS.

(** ** [src/types.ts] *)

Inductive AppState : Type :=
| IDLE
| REQUESTING_PERMISSION
| RECORDING_STORY
| PROCESSING_STORY
| PRESENTING_QUESTION
| RECORDING_ANSWER
| PROCESSING_ANSWER
| SUMMARY
| ERROR.

Record QnAPair : Type := mkQnAPair { question : jsstring; answer : jsstring }.

(** ** The component's state

    [Session] holds the six [useState] cells of [App].  [Controller] adds
    what lives outside React state: the [useRef] cell holding the id of the
    60-second timer, and the browser's table of pending timers. *)

Record Session : Type := mkSession {
  appState : AppState;
  error : option jsstring;
  storyText : jsstring;
  qnaPairs : list QnAPair;
  currentQuestionIndex : Z;
  copied : bool
}.

(** The three arrow functions the component hands to [setTimeout]. *)
Inductive TimerCallback : Type :=
| AutoStopStory   (* () => { handleStopStoryRecording(); }, 60000 *)
| ClearCopied     (* () => setCopied(false), 2500 *)
| ClearError.     (* () => setError(null), 3000 *)

Record Controller : Type := mkController {
  session : Session;
  recordingTimeoutRef : option nat;          (* recordingTimeoutRef.current *)
  timers : list (nat * TimerCallback);       (* pending timers, by id *)
  nextTimer : nat                      (* id the next setTimeout returns *)
}.

(** The values of the [useState] and [useRef] initialisers. *)
Definition initialSession : Session := mkSession IDLE None [] [] 0 false.
Definition initial : Controller := mkController initialSession None [] 1%nat.

(** ** Collaborators

    The recorder hook and the Gemini service are imported by [App.tsx]; a
    call to one of them suspends the handler until the promise settles. *)

Definition Blob : Type := list Byte.byte.

Inductive Call : Type :=
| startRecording
| stopRecording
| transcribeAudio (audioBlob : Blob)
| generateComprehensionQuestions (story : jsstring)
| clipboard_writeText (text : jsstring)
| navigator_share (title text : jsstring).

(** What the promise of each call resolves to. *)
Definition Resolved (c : Call) : Type :=
  match c with
  | startRecording => unit
  | stopRecording => option Blob            (* Blob | null *)
  | transcribeAudio _ => jsstring
  | generateComprehensionQuestions _ => list jsstring
  | clipboard_writeText _ => unit
  | navigator_share _ _ => unit
  end.

Inductive Settled (R : Type) : Type :=
| fulfilled (value : R)
| rejected (message : jsstring).            (* an Error with this .message *)
Arguments fulfilled {R} value.
Arguments rejected {R} message.

(** How the collaborators answer during one run of a handler. *)
Definition Oracle : Type := forall c : Call, Settled (Resolved c).

(** ** Asynchronous handlers *)

Inductive Async (A : Type) : Type :=
| Return (a : A)
| Throw (message : jsstring)
| Update (u : Controller -> option Controller) (k : Async A)
| Await (c : Call) (k : Settled (Resolved c) -> Async A).
Arguments Return {A} a.
Arguments Throw {A} message.
Arguments Update {A} u k.
Arguments Await {A} c k.

Fixpoint bind {A B} (m : Async A) (f : A -> Async B) : Async B :=
  match m with
  | Return a => f a
  | Throw e => Throw e
  | Update u k => Update u (bind k f)
  | Await c k => Await c (fun r => bind (k r) f)
  end.

(** [try { m } catch (err) { h (err.message) }] *)
Fixpoint try_catch {A} (m : Async A) (h : jsstring -> Async A) : Async A :=
  match m with
  | Return a => Return a
  | Throw e => h e
  | Update u k => Update u (try_catch k h)
  | Await c k => Await c (fun r => try_catch (k r) h)
  end.

Declare Scope async_scope.
Delimit Scope async_scope with async.
Bind Scope async_scope with Async.
Notation "x <- m ;; k" := (bind m (fun x => k))
  (at level 100, m at next level, right associativity) : async_scope.
Notation "m ;; k" := (bind m (fun _ => k))
  (at level 100, right associativity) : async_scope.
Local Open Scope async_scope.

(** [await c]: the value the promise is fulfilled with, or its rejection
    thrown. *)
Definition await (c : Call) : Async (Resolved c) :=
  Await c (fun r => match r with
                    | fulfilled v => Return v
                    | rejected e => Throw e
                    end).

(** A state write that cannot fail. *)
Definition modify (f : Controller -> Controller) : Async unit :=
  Update (fun s => Some (f s)) (Return tt).

(** A promise chain nobody awaits: its rejection reaches no handler. *)
Definition detached (m : Async unit) : Async unit :=
  try_catch m (fun _ => Return tt).

(** How a handler's run ends.  [RenderError] is an exception thrown by a
    state updater: React runs updaters while rendering, outside the
    handler's [try], and unmounts the component when one throws. *)
Inductive Completion (A : Type) : Type :=
| Returned (a : A)
| Uncaught (message : jsstring)
| RenderError.
Arguments Returned {A} a.
Arguments Uncaught {A} message.
Arguments RenderError {A}.

Record Run (A : Type) : Type := mkRun {
  suspended : list (Controller * Call);
    (* at each await: the state on screen meanwhile, and the request *)
  final : Controller;
  completion : Completion A
}.
Arguments mkRun {A} suspended final completion.
Arguments suspended {A} r.
Arguments final {A} r.
Arguments completion {A} r.

Fixpoint run {A} (m : Async A) (o : Oracle) (s : Controller) : Run A :=
  match m with
  | Return a => mkRun [] s (Returned a)
  | Throw e => mkRun [] s (Uncaught e)
  | Update u k =>
      match u s with
      | Some s' => run k o s'
      | None => mkRun [] s RenderError
      end
  | Await c k =>
      let r := run (k (o c)) o s in
      mkRun ((s, c) :: suspended r) (final r) (completion r)
  end.

(** The requests a run issued, in order. *)
Definition requests {A} (r : Run A) : list Call := (suspended r).*2.

(** ** State setters *)

Definition on_session (f : Session -> Session) (c : Controller) : Controller :=
  mkController (f (session c)) (recordingTimeoutRef c) (timers c) (nextTimer c).

Definition setAppState (v : AppState) : Async unit :=
  modify (on_session (fun s =>
    mkSession v (error s) (storyText s) (qnaPairs s)
              (currentQuestionIndex s) (copied s))).

Definition setError (v : option jsstring) : Async unit :=
  modify (on_session (fun s =>
    mkSession (appState s) v (storyText s) (qnaPairs s)
              (currentQuestionIndex s) (copied s))).

Definition setStoryText (v : jsstring) : Async unit :=
  modify (on_session (fun s =>
    mkSession (appState s) (error s) v (qnaPairs s)
              (currentQuestionIndex s) (copied s))).

Definition with_qnaPairs (v : list QnAPair) (s : Session) : Session :=
  mkSession (appState s) (error s) (storyText s) v
            (currentQuestionIndex s) (copied s).

Definition setQnaPairs (v : list QnAPair) : Async unit :=
  modify (on_session (with_qnaPairs v)).

(** [setQnaPairs(prev => ...)] with an updater that may throw. *)
Definition setQnaPairs_updater
    (f : list QnAPair -> option (list QnAPair)) : Async unit :=
  Update (fun c =>
            match f (qnaPairs (session c)) with
            | Some v => Some (on_session (with_qnaPairs v) c)
            | None => None
            end)
         (Return tt).

Definition with_currentQuestionIndex (v : Z) (s : Session) : Session :=
  mkSession (appState s) (error s) (storyText s) (qnaPairs s) v (copied s).

Definition setCurrentQuestionIndex (v : Z) : Async unit :=
  modify (on_session (with_currentQuestionIndex v)).

(** [setCurrentQuestionIndex(prev => ...)] *)
Definition setCurrentQuestionIndex_updater (f : Z -> Z) : Async unit :=
  modify (on_session (fun s =>
    with_currentQuestionIndex (f (currentQuestionIndex s)) s)).

Definition setCopied (v : bool) : Async unit :=
  modify (on_session (fun s =>
    mkSession (appState s) (error s) (storyText s) (qnaPairs s)
              (currentQuestionIndex s) v)).

(** ** Timers *)

(** [setTimeout(cb, ms)]: the id handed out, and the table with the new
    timer pending. *)
Definition setTimeout (cb : TimerCallback) (c : Controller)
    : nat * Controller :=
  (nextTimer c,
   mkController (session c) (recordingTimeoutRef c)
                ((nextTimer c, cb) :: timers c) (S (nextTimer c))).

Definition clearTimeout (id : nat) (c : Controller) : Controller :=
  mkController (session c) (recordingTimeoutRef c)
               (List.filter (fun t => negb (Nat.eqb (fst t) id)) (timers c))
               (nextTimer c).

Definition set_recordingTimeoutRef (v : option nat) (c : Controller)
    : Controller :=
  mkController (session c) v (timers c) (nextTimer c).

(** ** The handlers of [App] *)

Definition cleanupTimeout : Async unit :=
  modify (fun c =>
    match recordingTimeoutRef c with
    | Some id => set_recordingTimeoutRef None (clearTimeout id c)
    | None => c
    end).

Definition handleReset : Async unit :=
  cleanupTimeout ;;
  setAppState IDLE ;;
  setError None ;;
  setStoryText [] ;;
  setQnaPairs [] ;;
  setCurrentQuestionIndex 0 ;;
  setCopied false.

(** [Array.prototype.forEach] with a callback that updates a variable of
    the enclosing function ([text]): the variable is threaded through. *)
Fixpoint forEach_from {A S} (cb : S -> A -> Z -> S)
    (index : Z) (a : list A) (acc : S) : S :=
  match a with
  | [] => acc
  | x :: a' => forEach_from cb (index + 1) a' (cb acc x index)
  end.

Definition forEach {A S} (cb : S -> A -> Z -> S) (a : list A) (acc : S) : S :=
  forEach_from cb 0 a acc.

(** The callback reads [storyText] and [qnaPairs] of the render it was
    created in; they are its arguments here. *)
Definition getShareableText (storyText : jsstring) (qnaPairs : list QnAPair)
    : jsstring :=
  let text := lit "Reading Practice Session!" ++ LF ++ LF in
  let text := text ++ (lit "--- STORY ---" ++ LF) in
  let text := text ++ (storyText ++ LF ++ LF) in
  let text := text ++ (lit "--- QUESTIONS & ANSWERS ---" ++ LF ++ LF) in
  forEach
    (fun text pair index =>
       let text :=
         text ++ (lit "Question " ++ ofNumber (index + 1) ++ lit ": "
                  ++ question pair ++ LF) in
       text ++ (lit "Answer: "
                ++ or_else (answer pair) (lit "No answer recorded.")
                ++ LF ++ LF))
    qnaPairs text.

(** The promise of [writeText] is not awaited by the caller: the [then]
    callback runs when it is fulfilled, a rejection is dropped. *)
Definition handleCopyToClipboard (storyText : jsstring)
    (qnaPairs : list QnAPair) : Async unit :=
  let textToCopy := getShareableText storyText qnaPairs in
  detached (
    await (clipboard_writeText textToCopy) ;;
    setCopied true ;;
    modify (fun c => snd (setTimeout ClearCopied c))).

(** [navigator_share] is the truthiness of [navigator.share]. *)
Definition handleShare (navigator_share_defined : bool)
    (storyText : jsstring) (qnaPairs : list QnAPair) : Async unit :=
  let title := lit "Reading Practice Results" in
  let text := getShareableText storyText qnaPairs in
  try_catch
    (if navigator_share_defined
     then await (navigator_share title text)
     else handleCopyToClipboard storyText qnaPairs)
    (fun _ =>
       setError (Some (lit "Sharing was cancelled.")) ;;
       modify (fun c => snd (setTimeout ClearError c))).

Definition handleStartStoryRecording : Async unit :=
  setError None ;;
  setAppState REQUESTING_PERMISSION ;;
  try_catch
    (await startRecording ;;
     setAppState RECORDING_STORY ;;
     modify (fun c =>
       let (id, c') := setTimeout AutoStopStory c in
       set_recordingTimeoutRef (Some id) c'))
    (fun message =>
       setError (Some message) ;;
       setAppState ERROR).

Definition too_short_message : jsstring :=
  lit "The recording was too short or unclear. Let's try reading again!".

Definition no_questions_message : jsstring :=
  lit "I couldn't think of any questions for that story. Let's try another one!".

(** [isRecording] is the recorder's flag as seen by the render the
    callback was created in. *)
Definition handleStopStoryRecording (isRecording : bool) : Async unit :=
  cleanupTimeout ;;
  if negb isRecording then Return tt else
  audioBlob <- await stopRecording ;;
  match audioBlob with
  | Some audioBlob =>
      setAppState PROCESSING_STORY ;;
      try_catch
        (transcription <- await (transcribeAudio audioBlob) ;;
         setStoryText transcription ;;
         if negb (truthy transcription)
            || (JS.length (trim transcription) <? 10)
         then
           setError (Some too_short_message) ;;
           setAppState ERROR
         else
           questions <- await (generateComprehensionQuestions transcription) ;;
           if alength questions >? 0 then
             setQnaPairs (map (fun q => mkQnAPair q []) questions) ;;
             setAppState PRESENTING_QUESTION
           else
             setError (Some no_questions_message) ;;
             setAppState ERROR)
        (fun message =>
           setError (Some message) ;;
           setAppState ERROR)
  | None => handleReset
  end.

Definition handleStartAnswerRecording : Async unit :=
  setError None ;;
  setAppState REQUESTING_PERMISSION ;;
  try_catch
    (await startRecording ;;
     setAppState RECORDING_ANSWER)
    (fun message =>
       setError (Some message) ;;
       setAppState ERROR).

(** The updater handed to [setQnaPairs]: the array is copied and the pair
    at [currentQuestionIndex] gets the answer; reading [.answer] of
    [undefined] throws a TypeError. *)
Definition write_answer (currentQuestionIndex : Z) (answerText : jsstring)
    (prev : list QnAPair) : option (list QnAPair) :=
  match JS.get prev currentQuestionIndex with
  | Some _ =>
      Some (alter (fun pair => mkQnAPair (question pair) answerText)
                  (Z.to_nat currentQuestionIndex) prev)
  | None => None
  end.

(** [isRecording], [currentQuestionIndex] and [qnaPairs_length] are the
    dependencies of the callback: the values of the render it was created
    in.  The two updaters read the state current when they run. *)
Definition handleStopAnswerRecording (isRecording : bool)
    (currentQuestionIndex qnaPairs_length : Z) : Async unit :=
  if negb isRecording then Return tt else
  audioBlob <- await stopRecording ;;
  match audioBlob with
  | Some audioBlob =>
      setAppState PROCESSING_ANSWER ;;
      try_catch
        (answerText <- await (transcribeAudio audioBlob) ;;
         setQnaPairs_updater (write_answer currentQuestionIndex answerText) ;;
         if currentQuestionIndex <? qnaPairs_length - 1 then
           setCurrentQuestionIndex_updater (fun prev => prev + 1) ;;
           setAppState PRESENTING_QUESTION
         else
           setAppState SUMMARY)
        (fun message =>
           setError (Some message) ;;
           setAppState ERROR)
  | None => Return tt
  end.

(** ** Events

    What can call into the component: a click on a button of the view
    [renderContent] shows for the current [appState], or a pending timer
    firing.  A click carries the recorder's [isRecording] flag of the
    current render where the handler reads it, and the collaborators'
    answers for a run of the handler that nothing interrupts
    ([dispatch]). *)

Inductive Event : Type :=
| ClickStartReading (o : Oracle)
| ClickStopReading (isRecording : bool) (o : Oracle)
| ClickAnswerQuestion (o : Oracle)
| ClickDoneAnswering (isRecording : bool) (o : Oracle)
| ClickStartOver
| ClickTryAgain
| ClickShare (o : Oracle)
| ClickCopy (o : Oracle)
| TimerFires (id : nat) (isRecording : bool) (o : Oracle).

(** Collaborators that are never asked. *)
Definition silent : Oracle := fun _ => rejected [].

Definition oracle (e : Event) : Oracle :=
  match e with
  | ClickStartReading o | ClickStopReading _ o | ClickAnswerQuestion o
  | ClickDoneAnswering _ o | ClickShare o | ClickCopy o
  | TimerFires _ _ o => o
  | ClickStartOver | ClickTryAgain => silent
  end.

Definition pending (id : nat) (c : Controller) : option TimerCallback :=
  snd <$> List.find (fun t => Nat.eqb (fst t) id) (timers c).

(** Modelled from the spec: the recorder hook [useAudioRecorder] is not
    under [src/]; its flag reports a recording in progress, so it is false
    in the renders before a recording starts.  [handleStartStoryRecording]
    is memoized on [startRecording] alone and is clicked in the idle view:
    the [handleStopStoryRecording] its timer closes over belongs to the
    render that memoized it, a render with the flag false. *)
Definition memoized_isRecording : bool := false.

(** The body of a timer's arrow function.  The 60-second timer calls the
    [handleStopStoryRecording] that [handleStartStoryRecording] closed
    over, not the one of the render current when the timer fires. *)
Definition callback (cb : TimerCallback) : Async unit :=
  match cb with
  | AutoStopStory => handleStopStoryRecording memoized_isRecording
  | ClearCopied => setCopied false
  | ClearError => setError None
  end.

(** The handler an event reaches in state [c], if any: the [onClick] of the
    button in the view of [appState], with the values of this render.  No
    timer callback reads the flag that comes with [TimerFires]. *)
Definition listener (e : Event) (c : Controller) : option (Async unit) :=
  let s := session c in
  match e with
  | TimerFires id isRecording _ =>
      match pending id c with
      | Some cb => Some (modify (clearTimeout id) ;; callback cb)
      | None => None
      end
  | _ =>
    match appState s, e with
    | IDLE, ClickStartReading _ => Some handleStartStoryRecording
    | RECORDING_STORY, ClickStopReading isRecording _ =>
        Some (handleStopStoryRecording isRecording)
    | PRESENTING_QUESTION, ClickAnswerQuestion _ =>
        Some handleStartAnswerRecording
    | RECORDING_ANSWER, ClickDoneAnswering isRecording _ =>
        Some (handleStopAnswerRecording isRecording
                (currentQuestionIndex s) (alength (qnaPairs s)))
    | SUMMARY, ClickStartOver => Some handleReset
    | SUMMARY, ClickShare _ =>
        (* the button is rendered only when navigator.share is defined *)
        Some (handleShare true (storyText s) (qnaPairs s))
    | SUMMARY, ClickCopy _ =>
        (* disabled={copied} *)
        if copied s then None
        else Some (handleCopyToClipboard (storyText s) (qnaPairs s))
    | ERROR, ClickTryAgain => Some handleReset
    | _, _ => None
    end
  end.

Definition dispatch (e : Event) (c : Controller) : Run unit :=
  match listener e c with
  | Some h => run h (oracle e) c
  | None => mkRun [] c (Returned tt)
  end.

(** The state after the events when each one is taken once the handler
    of the previous one has finished, so that no two handlers overlap;
    [None] after a render error. *)
Fixpoint after (events : list Event) (c : Controller) : option Controller :=
  match events with
  | [] => Some c
  | e :: events' =>
      let r := dispatch e c in
      match completion r with
      | RenderError => None
      | _ => after events' (final r)
      end
  end.

(** ** The event loop

    A handler runs until its next [await] and is then suspended; while it
    waits the component renders the state it left, and clicks, timers and
    other handlers' promises are served.  The state tag changes only after
    [await stopRecording()], so the stop button of the recording views
    stays live while a stop handler waits, and a second handler can
    overlap the first. *)

(** A handler suspended at an [await]: the call it waits for and what it
    does with the outcome. *)
Inductive Task : Type :=
| task (awaited : Call) (resume : Settled (Resolved awaited) -> Async unit).

Record App : Type := mkApp {
  controller : Controller;
  inflight : list Task          (* the suspended handlers, oldest first *)
}.

Definition initialApp : App := mkApp initial [].

(** Run a handler up to its next [await], or to its end; [None] when a
    state updater throws. *)
Fixpoint advance (m : Async unit) (c : Controller)
    : option (Controller * list Task) :=
  match m with
  | Return _ | Throw _ => Some (c, [])
  | Update u k =>
      match u c with
      | Some c' => advance k c'
      | None => None
      end
  | Await ch k => Some (c, [task ch k])
  end.

(** One turn of the loop: an event starts its handler (the collaborators'
    answers that come with the event are not used here), or the promise
    the [n]-th suspended handler waits for settles as [o] says. *)
Inductive Step : Type :=
| Start (e : Event)
| Settle (n : nat) (o : Oracle).

Definition step (st : Step) (a : App) : option App :=
  match st with
  | Start e =>
      match listener e (controller a) with
      | Some h =>
          match advance h (controller a) with
          | Some (c', waiting) => Some (mkApp c' (inflight a ++ waiting))
          | None => None
          end
      | None => Some a
      end
  | Settle n o =>
      match inflight a !! n with
      | Some (task ch k) =>
          match advance (k (o ch)) (controller a) with
          | Some (c', waiting) =>
              Some (mkApp c' (delete n (inflight a) ++ waiting))
          | None => None
          end
      | None => Some a
      end
  end.

Fixpoint execute (steps : list Step) (a : App) : option App :=
  match steps with
  | [] => Some a
  | st :: steps' =>
      match step st a with
      | Some a' => execute steps' a'
      | None => None
      end
  end.

(** The states of the component after any turns of the loop. *)
Definition reachable (c : Controller) : Prop :=
  exists steps a, execute steps initialApp = Some a /\ controller a = c.

Arguments lit : simpl never.
Arguments trim : simpl never.
Arguments JS.length : simpl never.
Arguments alength : simpl never.
Arguments ofNumber : simpl never.
Arguments getShareableText : simpl never.
Arguments write_answer : simpl never.

(** ** The session invariant *)

(** States shown before any question exists, and states that show or
    record the answer to the question at [currentQuestionIndex]. *)
Definition before_questions (a : AppState) : bool :=
  match a with
  | IDLE | RECORDING_STORY | PROCESSING_STORY => true
  | _ => false
  end.

(** States shown before the story has been transcribed: idle, recording
    the story, and waiting for the microphone when no question exists
    yet. *)
Definition before_story (s : Session) : bool :=
  match appState s with
  | IDLE | RECORDING_STORY => true
  | REQUESTING_PERMISSION =>
      match qnaPairs s with [] => true | _ :: _ => false end
  | _ => false
  end.

Definition answer_bearing (a : AppState) : bool :=
  match a with
  | PRESENTING_QUESTION | RECORDING_ANSWER | PROCESSING_ANSWER => true
  | _ => false
  end.

Definition index_ok (s : Session) : Prop :=
  match qnaPairs s with
  | [] => currentQuestionIndex s = 0
  | _ :: _ => 0 <= currentQuestionIndex s < alength (qnaPairs s)
  end.

(** The 60-second timer is pending only while the story is being
    recorded, and then [recordingTimeoutRef] holds its id. *)
Definition timer_ok (c : Controller) : Prop :=
  forall id, In (id, AutoStopStory) (timers c) ->
    recordingTimeoutRef c = Some id /\
    appState (session c) = RECORDING_STORY.

Record invariant (c : Controller) : Prop := mkInvariant {
  inv_index : index_ok (session c);
  inv_before :
    before_questions (appState (session c)) = true ->
    qnaPairs (session c) = [];
  inv_story :
    before_story (session c) = true ->
    storyText (session c) = [];
  inv_answer :
    answer_bearing (appState (session c)) = true ->
    qnaPairs (session c) <> [];
  inv_timer : timer_ok c
}.

(** No 60-second timer among the pending ones. *)
Definition no_autostop (tm : list (nat * TimerCallback)) : Prop :=
  forall id, ~ In (id, AutoStopStory) tm.

(** [P] holds of every state a run of [m] goes through, and no updater
    throws: the states at the awaits and the state left behind. *)
Fixpoint always {A} (P : Controller -> Prop) (m : Async A) (o : Oracle)
    (c : Controller) : Prop :=
  match m with
  | Return _ | Throw _ => P c
  | Update u k =>
      match u c with
      | Some c' => always P k o c'
      | None => False
      end
  | Await ch k => P c /\ always P (k (o ch)) o c
  end.

(** What every state of a run satisfies when the handler starts from a
    state of the invariant: the invariant, and an index that did not go
    down. *)
Definition steady (c c' : Controller) : Prop :=
  invariant c' /\
  currentQuestionIndex (session c) <= currentQuestionIndex (session c').

(** The two buttons bound to [handleReset]. *)
Definition is_reset (e : Event) : bool :=
  match e with
  | ClickStartOver | ClickTryAgain => true
  | _ => false
  end.

(** ** The copy/share text as the interface describes it

    A header, the story section, and one block per pair, numbered from 1 in
    list order, whose answer line reads [No answer recorded.] exactly when
    the stored answer is the empty string. *)

Definition answer_or_placeholder (pair : QnAPair) : jsstring :=
  match answer pair with
  | [] => lit "No answer recorded."
  | _ :: _ => answer pair
  end.

Definition share_entry (k : nat) (pair : QnAPair) : jsstring :=
  lit "Question " ++ ofNumber (Z.of_nat (S k)) ++ lit ": "
    ++ question pair ++ LF
  ++ lit "Answer: " ++ answer_or_placeholder pair ++ LF
  ++ LF.

Definition share_layout (story : jsstring) (pairs : list QnAPair) : jsstring :=
  lit "Reading Practice Session!" ++ LF
  ++ LF
  ++ lit "--- STORY ---" ++ LF
  ++ story ++ LF
  ++ LF
  ++ lit "--- QUESTIONS & ANSWERS ---" ++ LF
  ++ LF
  ++ concat (imap share_entry pairs).

(** ** A sample session, for concrete runs

    The recorder and the services answer every call successfully: the
    story is transcribed as [sampleStory], two questions come back, every
    answer is transcribed as [sampleAnswer]. *)

Definition sampleStory : jsstring :=
  lit "The cat sat on the mat and looked at the bird outside the window.".

Definition sampleQuestions : list jsstring :=
  [lit "Where did the cat sit?"; lit "What did the cat look at?"].

Definition sampleAnswer : jsstring := lit "On the mat.".

Definition sampleBlob : Blob := [Byte.x52; Byte.x49; Byte.x46; Byte.x46].

Definition answering (audio : option Blob) (transcription : jsstring)
    (questions : list jsstring) : Oracle :=
  fun c =>
    match c as c0 return Settled (Resolved c0) with
    | startRecording => fulfilled tt
    | stopRecording => fulfilled audio
    | transcribeAudio _ => fulfilled transcription
    | generateComprehensionQuestions _ => fulfilled questions
    | clipboard_writeText _ => fulfilled tt
    | navigator_share _ _ => fulfilled tt
    end.

Definition storyOracle : Oracle :=
  answering (Some sampleBlob) sampleStory sampleQuestions.

Definition answerOracle : Oracle :=
  answering (Some sampleBlob) sampleAnswer [].

(** The session up to the recording of the first answer. *)
Definition toFirstAnswer : list Event :=
  [ClickStartReading storyOracle; ClickStopReading true storyOracle;
   ClickAnswerQuestion answerOracle].

(** The session up to the recording of the story. *)
Definition toStoryRecording : list Event := [ClickStartReading storyOracle].

(** * Further definitions

    What the properties of the handlers, of the sessions and of the event
    loop are stated with. *)

(** What a handler leaves of the session besides the state tag and the
    error. *)
Definition same_content (s s' : Session) : Prop :=
  storyText s' = storyText s /\
  qnaPairs s' = qnaPairs s /\
  currentQuestionIndex s' = currentQuestionIndex s /\
  copied s' = copied s.

(** Collaborators that fail every call with the same message. *)
Definition refusing (message : jsstring) : Oracle := fun _ => rejected message.

(** Collaborators of which only the recorder works. *)
Definition recorderOnly (audio : option Blob) (message : jsstring) : Oracle :=
  fun c =>
    match c as c0 return Settled (Resolved c0) with
    | startRecording => fulfilled tt
    | stopRecording => fulfilled audio
    | _ => rejected message
    end.

(** The pending timers but the one with this id. *)
Definition other_timers (id : nat) (tm : list (nat * TimerCallback))
    : list (nat * TimerCallback) :=
  List.filter (fun t => negb (Nat.eqb (fst t) id)) tm.

(** ** Answers are filled in order *)

(** Every pair at position [k0] or later has an empty answer. *)
Definition unanswered_from (k0 : Z) (pairs : list QnAPair) : Prop :=
  forall k pair, pairs !! k = Some pair -> k0 <= Z.of_nat k -> answer pair = [].

Record in_order (c : Controller) : Prop := mkInOrder {
  in_order_open :
    appState (session c) <> SUMMARY ->
    unanswered_from (currentQuestionIndex (session c)) (qnaPairs (session c));
  in_order_done :
    appState (session c) = SUMMARY ->
    currentQuestionIndex (session c) = alength (qnaPairs (session c)) - 1
}.

(** ** The view *)

Inductive View : Type :=
| IdleView
| RecordingStoryView
| ProcessingStoryView
| PresentingQuestionView (number total : Z) (question : jsstring)
| RecordingAnswerView (question : jsstring)
| ProcessingAnswerView
| SummaryView (story : jsstring) (items : list (jsstring * jsstring))
    (shareButton : bool) (copyLabel : jsstring) (copyDisabled : bool)
| RequestingPermissionView
| ErrorView (message : option jsstring).

Definition renderContent (navigator_share_defined : bool) (s : Session)
    : option View :=
  match appState s with
  | IDLE => Some IdleView
  | RECORDING_STORY => Some RecordingStoryView
  | PROCESSING_STORY => Some ProcessingStoryView
  | PRESENTING_QUESTION =>
      match JS.get (qnaPairs s) (currentQuestionIndex s) with
      | Some current =>
          Some (PresentingQuestionView (currentQuestionIndex s + 1)
                  (alength (qnaPairs s)) (question current))
      | None => None
      end
  | RECORDING_ANSWER =>
      match JS.get (qnaPairs s) (currentQuestionIndex s) with
      | Some current => Some (RecordingAnswerView (question current))
      | None => None
      end
  | PROCESSING_ANSWER => Some ProcessingAnswerView
  | SUMMARY =>
      Some (SummaryView (storyText s)
              (map (fun pair =>
                      (question pair,
                       or_else (answer pair) (lit "No answer recorded.")))
                   (qnaPairs s))
              navigator_share_defined
              (if copied s then lit "Copied!" else lit "Copy Results")
              (copied s))
  | REQUESTING_PERMISSION => Some RequestingPermissionView
  | ERROR => Some (ErrorView (error s))
  end.

(** ** A whole session *)

(** The user answers each question in turn: for every answer, a click on
    Answer Question and, with the recorder active, a click on I'm Done
    Answering, the recording being transcribed as that answer. *)
Definition answerEvents (audio : Blob) (answers : list jsstring) : list Event :=
  flat_map
    (fun a =>
       [ClickAnswerQuestion (answering (Some audio) a []);
        ClickDoneAnswering true (answering (Some audio) a [])])
    answers.

(** A story read and transcribed as [story], for which [questions] are
    generated, then the answers. *)
Definition sessionEvents (audio : Blob) (story : jsstring)
    (questions answers : list jsstring) : list Event :=
  ClickStartReading (answering (Some audio) story questions)
  :: ClickStopReading true (answering (Some audio) story questions)
  :: answerEvents audio answers.

Definition unanswered (questions : list jsstring) : list QnAPair :=
  map (fun q => mkQnAPair q []) questions.

(** A finished session with a cancelled share, a reset, and a new story
    refused by the microphone: the share notice's timer is still pending. *)
Definition toStaleNotice : list Event :=
  sessionEvents sampleBlob sampleStory sampleQuestions
    [lit "On the mat."; lit "The bird."]
  ++ [ClickShare (refusing (lit "AbortError"));
      ClickStartOver;
      ClickStartReading (refusing (lit "Permission denied"))].

(** The state that session ends in. *)
Definition staleNoticeState : Controller :=
  mkController
    (mkSession ERROR (Some (lit "Permission denied")) [] [] 0 false)
    None [(2%nat, ClearError)] 3%nat.


(** ** Overlapping handlers *)

(** The sample session as turns of the loop, up to the recording of the
    first answer: every promise settles before the next click. *)
Definition toRecordingAnswer : list Step :=
  [Start (ClickStartReading storyOracle); Settle 0 storyOracle;
   Start (ClickStopReading true storyOracle);
   Settle 0 storyOracle; Settle 0 storyOracle; Settle 0 storyOracle;
   Start (ClickAnswerQuestion answerOracle); Settle 0 answerOracle].

Definition otherAnswer : jsstring := lit "Outside.".

Definition otherOracle : Oracle := answering (Some sampleBlob) otherAnswer [].

(** Two clicks on I'm Done Answering before [stopRecording()] settles: the
    view is still the recording view at the second click.  Both handlers
    get a blob; the first transcription returns, then the second. *)
Definition firstDone : list Step :=
  [Start (ClickDoneAnswering true answerOracle);
   Start (ClickDoneAnswering true otherOracle);
   Settle 0 answerOracle;      (* stopRecording() of the first handler *)
   Settle 0 otherOracle;       (* stopRecording() of the second handler *)
   Settle 0 answerOracle].     (* transcription for the first handler *)

Definition doubleDone : list Step :=
  firstDone ++ [Settle 0 otherOracle].  (* transcription for the second *)

(** Two clicks on Stop Reading before [stopRecording()] settles.  The
    first handler runs to the questions and the user answers the first
    one; the promises of the second handler settle after that, the last
    one with the generated questions. *)
Definition lateStopPending : list Step :=
  [Start (ClickStartReading storyOracle); Settle 0 storyOracle;
   Start (ClickStopReading true storyOracle);
   Start (ClickStopReading true storyOracle);
   Settle 0 storyOracle;       (* first handler: stopRecording() *)
   Settle 1 storyOracle;       (* first handler: transcription *)
   Settle 1 storyOracle;       (* first handler: questions *)
   Start (ClickAnswerQuestion answerOracle); Settle 1 answerOracle;
   Start (ClickDoneAnswering true answerOracle);
   Settle 1 answerOracle; Settle 1 answerOracle;
   Settle 0 storyOracle;       (* second handler: stopRecording() *)
   Settle 0 storyOracle].      (* second handler: transcription *)

Definition lateStop : list Step :=
  lateStopPending ++ [Settle 0 storyOracle].  (* second handler: questions *)

(** The calls the suspended handlers wait for. *)
Definition awaitedCalls (a : App) : list Call :=
  map (fun t => match t with task ch _ => ch end) (inflight a).

(** ** Before the story is transcribed *)







(** ** When the questions arrive *)






(** ** Sessions whose handlers do not overlap *)

(** The states a run shows: at each await, and at its end. *)
Definition visited (r : Run unit) : list Controller :=
  (suspended r).*1 ++ [final r].
(** * Properties *)

(** ** Concrete runs *)

Example trim_strips_both_ends : trim (lit "  ok " ++ LF) = lit "ok".
Proof. reflexivity. Qed.

Example trim_keeps_inner_spaces : trim (lit " a b ") = lit "a b".
Proof. reflexivity. Qed.

Example ofNumber_decimal : ofNumber 12 = lit "12".
Proof. reflexivity. Qed.

Example share_text_of_two_pairs :
  getShareableText (lit "Once.")
    [mkQnAPair (lit "Who?") (lit "Me."); mkQnAPair (lit "Why?") []]
  = lit "Reading Practice Session!" ++ LF
    ++ LF
    ++ lit "--- STORY ---" ++ LF
    ++ lit "Once." ++ LF
    ++ LF
    ++ lit "--- QUESTIONS & ANSWERS ---" ++ LF
    ++ LF
    ++ lit "Question 1: Who?" ++ LF
    ++ lit "Answer: Me." ++ LF
    ++ LF
    ++ lit "Question 2: Why?" ++ LF
    ++ lit "Answer: No answer recorded." ++ LF
    ++ LF.
Proof. reflexivity. Qed.

(** The story is transcribed, two questions come back: the first question
    is presented, of two. *)
Example story_with_two_questions :
  (fun c => (appState (session c), currentQuestionIndex (session c),
             alength (qnaPairs (session c))))
    <$> after [ClickStartReading storyOracle;
               ClickStopReading true storyOracle] initial
  = Some (PRESENTING_QUESTION, 0, 2).
Proof. reflexivity. Qed.

(** The transcription returns [ok]. *)
Example story_too_short :
  (fun c => (appState (session c), error (session c)))
    <$> after [ClickStartReading storyOracle;
               ClickStopReading true
                 (answering (Some sampleBlob) (lit "ok") sampleQuestions)]
              initial
  = Some (ERROR, Some too_short_message).
Proof. reflexivity. Qed.

(** The question service returns no question. *)
Example story_without_questions :
  (fun c => (appState (session c), error (session c)))
    <$> after [ClickStartReading storyOracle;
               ClickStopReading true
                 (answering (Some sampleBlob) sampleStory [])]
              initial
  = Some (ERROR, Some no_questions_message).
Proof. reflexivity. Qed.

(** The 60-second timer fires while the story is being recorded: the
    handler it calls returns at its guard, the recording goes on. *)
Example story_auto_stop :
  (fun c => (appState (session c), recordingTimeoutRef c, timers c))
    <$> after [ClickStartReading storyOracle;
               TimerFires 1 true storyOracle] initial
  = Some (RECORDING_STORY, None, []).
Proof. reflexivity. Qed.

(** ** Arrays and the answer updater *)

Lemma write_answer_in_range (i : Z) (a : jsstring) (q : list QnAPair) :
  0 <= i < alength q ->
  write_answer i a q =
    Some (alter (fun pair => mkQnAPair (question pair) a) (Z.to_nat i) q).
Proof.
  intros Hi. unfold write_answer, JS.get.
  destruct (Z.ltb_spec i 0); [lia|].
  destruct (lookup_lt_is_Some_2 q (Z.to_nat i)) as [p ->]; [|reflexivity].
  unfold alength in Hi. lia.
Qed.

Lemma alength_alter (f : QnAPair -> QnAPair) (n : nat) (q : list QnAPair) :
  alength (alter f n q) = alength q.
Proof. unfold alength. now rewrite length_alter. Qed.

Lemma alter_nonempty (f : QnAPair -> QnAPair) n (q : list QnAPair) :
  q <> [] -> alter f n q <> [].
Proof.
  intros H E. apply (f_equal List.length) in E. rewrite length_alter in E.
  destruct q; [congruence | discriminate].
Qed.

Lemma map_nonempty {A B} (f : A -> B) (l : list A) :
  (alength l >? 0) = true -> map f l <> [].
Proof. destruct l; [discriminate 1| discriminate 2]. Qed.

Lemma map_pairs_range (questions : list jsstring) :
  (alength questions >? 0) = true ->
  map (fun q => mkQnAPair q []) questions <> [] /\
  0 <= 0 < alength (map (fun q => mkQnAPair q []) questions).
Proof.
  destruct questions; [discriminate|]. intros _. split; [discriminate|].
  unfold alength. cbn. lia.
Qed.

Lemma alength_cons_positive {A} (x : A) (l : list A) :
  (alength (x :: l) >? 0) = true.
Proof. apply Z.gtb_lt. unfold alength. cbn [List.length]. lia. Qed.


(** ** The guard on the story transcript *)

Lemma too_short_guard (t : jsstring) :
  JS.length (trim t) < 10 ->
  negb (truthy t) || (JS.length (trim t) <? 10) = true.
Proof. intros H. apply orb_true_iff. right. apply Z.ltb_lt, H. Qed.

Lemma long_enough_guard (t : jsstring) :
  10 <= JS.length (trim t) ->
  negb (truthy t) || (JS.length (trim t) <? 10) = false.
Proof.
  intros H. apply orb_false_iff. split.
  - destruct t; [|reflexivity]. vm_compute in H. destruct H. reflexivity.
  - apply Z.ltb_ge, H.
Qed.

(** ** Runs *)

(** [always] describes the run: no render error, and the predicate on the
    state left behind and on every state shown at an await. *)

Lemma run_always {A} (P : Controller -> Prop) (m : Async A) (o : Oracle) :
  forall c, always P m o c ->
    completion (run m o c) <> RenderError /\
    Forall P (final (run m o c) :: (suspended (run m o c)).*1).
Proof.
  induction m as [a|msg|u k IH|ch k IH]; intros c H; cbn in *.
  - split; [discriminate | repeat constructor; exact H].
  - split; [discriminate | repeat constructor; exact H].
  - destruct (u c) as [c'|]; [apply IH, H | destruct H].
  - destruct H as [Hc H]. destruct (IH _ _ H) as [Hcompl Hall].
    split; [exact Hcompl|]. inversion Hall; subst.
    repeat constructor; assumption.
Qed.

Lemma always_impl {A} (P Q : Controller -> Prop) (m : Async A) (o : Oracle) :
  (forall c, P c -> Q c) ->
  forall c, always P m o c -> always Q m o c.
Proof.
  intros HPQ. induction m as [a|msg|u k IH|ch k IH]; intros c H; cbn in *.
  - auto.
  - auto.
  - destruct (u c); [apply IH, H | exact H].
  - destruct H as [Hc H]. split; [auto | apply IH, H].
Qed.

(** ** The 60-second timer *)

Section Timers.

Variables (s : Session) (tm : list (nat * TimerCallback)) (nx : nat).

Lemma no_autostop_timer_ok ref :
  no_autostop tm -> timer_ok (mkController s ref tm nx).
Proof. intros H id Hin. destruct (H id Hin). Qed.

Lemma no_autostop_filter f :
  no_autostop tm -> no_autostop (List.filter f tm).
Proof.
  intros H id Hin. apply filter_In in Hin as [Hin _]. exact (H id Hin).
Qed.

Lemma no_autostop_cons n cb :
  cb <> AutoStopStory -> no_autostop tm -> no_autostop ((n, cb) :: tm).
Proof. intros Hcb H id [Heq|Hin]; [congruence | exact (H id Hin)]. Qed.

Lemma timer_ok_cleared id :
  timer_ok (mkController s (Some id) tm nx) ->
  no_autostop (List.filter (fun t => negb (Nat.eqb (fst t) id)) tm).
Proof.
  intros H id' Hin. apply filter_In in Hin as [Hin Hne].
  destruct (H id' Hin) as [Href _]. cbn in Href, Hne.
  injection Href as ->. rewrite Nat.eqb_refl in Hne. discriminate.
Qed.

Lemma timer_ok_no_ref :
  timer_ok (mkController s None tm nx) -> no_autostop tm.
Proof. intros H id Hin. destruct (H id Hin) as [Href _]. discriminate. Qed.

Lemma timer_ok_elsewhere ref :
  appState s <> RECORDING_STORY ->
  timer_ok (mkController s ref tm nx) -> no_autostop tm.
Proof.
  intros Hne H id Hin. destruct (H id Hin) as [_ Hst]. exact (Hne Hst).
Qed.

Lemma timer_ok_armed :
  appState s = RECORDING_STORY ->
  no_autostop tm ->
  timer_ok (mkController s (Some nx) ((nx, AutoStopStory) :: tm) (S nx)).
Proof.
  intros Hst H id [Heq|Hin]; [| destruct (H id Hin)].
  injection Heq as <-. split; [reflexivity | exact Hst].
Qed.

Lemma timer_ok_cons ref n cb nx' :
  cb <> AutoStopStory ->
  timer_ok (mkController s ref tm nx) ->
  timer_ok (mkController s ref ((n, cb) :: tm) nx').
Proof. intros Hcb H id [Heq|Hin]; [congruence | exact (H id Hin)]. Qed.

End Timers.

Lemma timer_ok_same (c c' : Controller) :
  timer_ok c ->
  appState (session c') = appState (session c) ->
  recordingTimeoutRef c' = recordingTimeoutRef c ->
  incl (timers c') (timers c) ->
  timer_ok c'.
Proof.
  intros H Hst Href Hincl id Hin. rewrite Hst, Href. apply H, Hincl, Hin.
Qed.

Lemma pending_In (id : nat) (c : Controller) (cb : TimerCallback) :
  pending id c = Some cb -> In (id, cb) (timers c).
Proof.
  unfold pending.
  destruct (List.find _ (timers c)) as [[n cb']|] eqn:E; [|discriminate].
  cbn. intros [= <-]. apply find_some in E as [Hin Heq]. cbn in Heq.
  apply Nat.eqb_eq in Heq as ->. exact Hin.
Qed.

(** ** The invariant is kept by every handler *)

Lemma index_ok_range (s : Session) :
  index_ok s -> qnaPairs s <> [] ->
  0 <= currentQuestionIndex s < alength (qnaPairs s).
Proof. unfold index_ok. destruct (qnaPairs s); [congruence | auto]. Qed.

Lemma index_ok_intro a e st q i cp :
  (q = [] -> i = 0) -> (q <> [] -> 0 <= i < alength q) ->
  index_ok (mkSession a e st q i cp).
Proof.
  unfold index_ok; cbn.
  destruct q; intros H1 H2; [auto | apply H2; discriminate].
Qed.

Lemma index_ok_elim a e st q i cp :
  index_ok (mkSession a e st q i cp) ->
  (q = [] -> i = 0) /\ (q <> [] -> 0 <= i < alength q).
Proof.
  unfold index_ok; cbn.
  destruct q; intros H; split; intros; try congruence; auto.
Qed.

Lemma index_ok_cases (s : Session) :
  (qnaPairs s = [] -> currentQuestionIndex s = 0) ->
  (qnaPairs s <> [] -> 0 <= currentQuestionIndex s < alength (qnaPairs s)) ->
  index_ok s.
Proof. destruct s. apply index_ok_intro. Qed.

Lemma invariant_same (c c' : Controller) :
  invariant c ->
  appState (session c') = appState (session c) ->
  storyText (session c') = storyText (session c) ->
  qnaPairs (session c') = qnaPairs (session c) ->
  currentQuestionIndex (session c') = currentQuestionIndex (session c) ->
  recordingTimeoutRef c' = recordingTimeoutRef c ->
  incl (timers c') (timers c) ->
  invariant c'.
Proof.
  intros [Hidx Hbefore Hstory Hanswer Htimer] Ha Hs Hq Hi Href Hincl.
  constructor.
  - unfold index_ok in *. rewrite Hq, Hi. exact Hidx.
  - rewrite Ha, Hq. exact Hbefore.
  - unfold before_story in *. rewrite Ha, Hq, Hs. exact Hstory.
  - rewrite Ha, Hq. exact Hanswer.
  - eapply timer_ok_same; eassumption.
Qed.

Lemma clearTimeout_invariant (id : nat) (c : Controller) :
  invariant c -> invariant (clearTimeout id c).
Proof.
  intros [Hidx Hbefore Hstory Hanswer Htimer]. constructor; try assumption.
  eapply timer_ok_same;
    [eassumption | reflexivity | reflexivity | apply incl_filter].
Qed.

(** Proof steps shared by the handlers' lemmas: [norm] computes a state
    written as nested setters, [settle] runs a handler and splits on every
    answer of the collaborators, the remaining tactics close the parts of
    [invariant] for the states so obtained. *)

Ltac norm :=
  cbv [on_session with_qnaPairs with_currentQuestionIndex
       set_recordingTimeoutRef clearTimeout setTimeout
       session recordingTimeoutRef timers nextTimer
       appState error storyText qnaPairs currentQuestionIndex copied].

Ltac settle :=
  repeat (cbn;
    match goal with
    | |- context [match ?o ?c with fulfilled _ => _ | rejected _ => _ end] =>
        destruct (o c) as [?value|?message]
    | |- context [match ?v with Some _ => _ | None => _ end] =>
        is_var v; destruct v
    | |- context [write_answer ?i ?a ?q] =>
        rewrite (write_answer_in_range i a q) by assumption
    | |- context [if ?b then _ else _] => destruct b eqn:?
    | |- _ /\ _ => split
    end).

Ltac no_autostop_tac :=
  first [ assumption
        | eapply timer_ok_cleared; eassumption
        | eapply timer_ok_no_ref; eassumption
        | apply no_autostop_filter; no_autostop_tac
        | apply no_autostop_cons; [discriminate | no_autostop_tac] ].

Ltac timer_tac :=
  first [ assumption
        | apply no_autostop_timer_ok; no_autostop_tac
        | apply timer_ok_armed; [reflexivity | no_autostop_tac]
        | eapply timer_ok_cons; [discriminate | eassumption]
        | eapply timer_ok_same;
          [ eassumption | reflexivity | reflexivity
          | first [ apply incl_refl | apply incl_filter ] ] ].

Ltac index_tac :=
  apply index_ok_cases; norm; intros; rewrite ?alength_alter in *;
  try match goal with
      | Hq : ?q <> [], E : alter _ _ ?q = [] |- _ =>
          destruct (alter_nonempty _ _ _ Hq E)
      end;
  try match goal with
      | H : (alength ?l >? 0) = true |- _ => destruct (map_pairs_range l H)
      | H : (?a <? ?b) = true |- _ => apply Z.ltb_lt in H
      end;
  first [ lia | congruence | tauto | eauto ].

Ltac invariant_tac :=
  norm;
  constructor;
  [ index_tac
  | norm; first [ discriminate 1 | tauto | reflexivity | eauto ]
  | norm; cbn;
    first [ discriminate 1 | tauto | solve [eauto]
          | match goal with
            | |- match ?q with [] => _ | _ :: _ => _ end = true -> _ =>
                destruct q; [congruence | discriminate 1]
            end ]
  | norm;
    first [ discriminate 1 | tauto
          | eauto using alter_nonempty, map_nonempty ]
  | norm; timer_tac ].

Ltac open_invariant c H :=
  destruct c as [[?a ?er ?st ?q ?i ?cp] ?ref ?tm ?nx];
  destruct H as [Hidx Hbefore Hstory Hanswer Htimer];
  apply index_ok_elim in Hidx as [Hi0 Hirange];
  unfold before_story in Hstory;
  cbn in Hbefore, Hstory, Hanswer.

Ltac in_state :=
  match goal with
  | H : appState _ = _ |- _ => cbn in H; subst
  end;
  match goal with
  | Hbefore : _ -> ?q = [], Hstory : _ -> ?st = [], Hanswer : _ -> ?q <> [],
    Hi0 : _ -> ?i = 0, Hirange : _ -> _ <= ?i < _ |- _ =>
      cbn in Hbefore, Hstory, Hanswer;
      try specialize (Hbefore eq_refl); try specialize (Hanswer eq_refl);
      try (subst q; specialize (Hi0 eq_refl));
      cbn in Hstory; try specialize (Hstory eq_refl);
      try specialize (Hirange Hanswer)
  end.

Ltac finish :=
  first [ assumption
        | solve [invariant_tac]
        | norm; lia ].

Lemma handleStartStoryRecording_steady (o : Oracle) (c : Controller) :
  invariant c -> appState (session c) = IDLE ->
  always (steady c) handleStartStoryRecording o c.
Proof.
  intros H Hst. open_invariant c H. in_state.
  assert (no_autostop tm)
    by (eapply timer_ok_elsewhere; [|exact Htimer]; discriminate).
  unfold steady. settle; finish.
Qed.

Lemma handleStopStoryRecording_steady (isRecording : bool) (o : Oracle)
    (c : Controller) :
  invariant c -> appState (session c) = RECORDING_STORY ->
  always (steady c) (handleStopStoryRecording isRecording) o c.
Proof.
  intros H Hst. open_invariant c H. in_state.
  unfold steady. settle; finish.
Qed.

Lemma handleStartAnswerRecording_steady (o : Oracle) (c : Controller) :
  invariant c -> appState (session c) = PRESENTING_QUESTION ->
  always (steady c) handleStartAnswerRecording o c.
Proof.
  intros H Hst. open_invariant c H. in_state.
  assert (no_autostop tm)
    by (eapply timer_ok_elsewhere; [|exact Htimer]; discriminate).
  unfold steady. settle; finish.
Qed.

Lemma handleStopAnswerRecording_steady (isRecording : bool) (o : Oracle)
    (c : Controller) :
  invariant c -> appState (session c) = RECORDING_ANSWER ->
  always (steady c)
    (handleStopAnswerRecording isRecording
       (currentQuestionIndex (session c)) (alength (qnaPairs (session c))))
    o c.
Proof.
  intros H Hst. open_invariant c H. in_state.
  assert (no_autostop tm)
    by (eapply timer_ok_elsewhere; [|exact Htimer]; discriminate).
  unfold steady, handleStopAnswerRecording. settle; finish.
Qed.

Lemma handleReset_invariant (o : Oracle) (c : Controller) :
  invariant c -> always invariant handleReset o c.
Proof.
  intros H. open_invariant c H. settle; finish.
Qed.

Lemma handleShare_steady (o : Oracle) (c : Controller) :
  invariant c -> appState (session c) = SUMMARY ->
  always (steady c)
    (handleShare true (storyText (session c)) (qnaPairs (session c))) o c.
Proof.
  intros H Hst. open_invariant c H. in_state.
  assert (no_autostop tm)
    by (eapply timer_ok_elsewhere; [|exact Htimer]; discriminate).
  unfold steady. settle; finish.
Qed.

Lemma handleCopyToClipboard_steady (o : Oracle) (c : Controller) :
  invariant c -> appState (session c) = SUMMARY ->
  always (steady c)
    (handleCopyToClipboard (storyText (session c)) (qnaPairs (session c))) o c.
Proof.
  intros H Hst. open_invariant c H. in_state.
  assert (no_autostop tm)
    by (eapply timer_ok_elsewhere; [|exact Htimer]; discriminate).
  unfold steady. settle; finish.
Qed.

Lemma callback_steady (id : nat) (cb : TimerCallback)
    (o : Oracle) (c : Controller) :
  invariant c -> pending id c = Some cb ->
  always (steady c) (modify (clearTimeout id) ;; callback cb) o c.
Proof.
  intros H Hcb. apply pending_In in Hcb.
  change (always (steady c) (callback cb) o (clearTimeout id c)).
  destruct cb.
  - destruct (inv_timer c H id Hcb) as [_ Hst].
    apply (always_impl (steady (clearTimeout id c)));
      [intros c' Hc'; exact Hc'|].
    apply handleStopStoryRecording_steady;
      [apply clearTimeout_invariant, H | exact Hst].
  - split; [| cbn; lia].
    eapply invariant_same; [exact H | reflexivity ..| apply incl_filter].
  - split; [| cbn; lia].
    eapply invariant_same; [exact H | reflexivity ..| apply incl_filter].
Qed.

Lemma dispatch_steady (e : Event) (c : Controller) :
  invariant c ->
  always (fun c' => invariant c' /\
            (is_reset e = false ->
             currentQuestionIndex (session c)
             <= currentQuestionIndex (session c')))
         (match listener e c with Some h => h | None => Return tt end)
         (oracle e) c.
Proof.
  intros H.
  assert (Hidle : always (fun c' => invariant c' /\
            (is_reset e = false ->
             currentQuestionIndex (session c)
             <= currentQuestionIndex (session c'))) (Return tt) (oracle e) c)
    by (cbn; split; [exact H | intros _; lia]).
  assert (Hsteady : forall (m : Async unit) o,
            always (steady c) m o c ->
            always (fun c' => invariant c' /\
              (is_reset e = false ->
               currentQuestionIndex (session c)
               <= currentQuestionIndex (session c'))) m o c).
  { intros m o. apply always_impl. intros c' [? ?]. auto. }
  assert (Hreset : is_reset e = true -> forall o,
            always (fun c' => invariant c' /\
              (is_reset e = false ->
               currentQuestionIndex (session c)
               <= currentQuestionIndex (session c'))) handleReset o c).
  { intros He o. apply (always_impl invariant); [|apply handleReset_invariant, H].
    intros c' Hc'. split; [exact Hc' | congruence]. }
  unfold listener.
  destruct e; cbn [oracle].
  9: { destruct (pending id c) eqn:Hcb; [|exact Hidle].
       apply Hsteady, callback_steady; assumption. }
  all: destruct (appState (session c)) eqn:Hst; try exact Hidle.
  - apply Hsteady, handleStartStoryRecording_steady; assumption.
  - apply Hsteady, handleStopStoryRecording_steady; assumption.
  - apply Hsteady, handleStartAnswerRecording_steady; assumption.
  - apply Hsteady, handleStopAnswerRecording_steady; assumption.
  - apply Hreset. reflexivity.
  - apply Hreset. reflexivity.
  - apply Hsteady, handleShare_steady; assumption.
  - destruct (copied (session c)); [exact Hidle|].
    apply Hsteady, handleCopyToClipboard_steady; assumption.
Qed.

Lemma dispatch_visited (e : Event) (c : Controller) :
  invariant c ->
  completion (dispatch e c) <> RenderError /\
  Forall (fun c' => invariant c' /\
            (is_reset e = false ->
             currentQuestionIndex (session c)
             <= currentQuestionIndex (session c')))
         (final (dispatch e c) :: (suspended (dispatch e c)).*1).
Proof.
  intros H. apply dispatch_steady with (e := e) in H.
  unfold dispatch. destruct (listener e c) as [h|].
  - apply run_always in H. exact H.
  - cbn in *. split; [discriminate | constructor; [exact H | constructor]].
Qed.

Lemma initial_invariant : invariant initial.
Proof.
  constructor; cbn; try reflexivity; try discriminate.
  intros id [].
Qed.

Lemma after_invariant (events : list Event) :
  forall c c', invariant c -> after events c = Some c' -> invariant c'.
Proof.
  induction events as [|e events IH]; intros c c' H; cbn.
  - intros [= <-]. exact H.
  - destruct (dispatch_visited e c H) as [Hcompl Hall].
    apply Forall_cons in Hall as [[Hfinal _] _].
    destruct (completion (dispatch e c)); [apply IH, Hfinal ..| congruence].
Qed.

Lemma after_total (events : list Event) :
  forall c, invariant c -> is_Some (after events c).
Proof.
  induction events as [|e events IH]; intros c H; cbn.
  - eauto.
  - destruct (dispatch_visited e c H) as [Hcompl Hall].
    apply Forall_cons in Hall as [[Hfinal _] _].
    destruct (completion (dispatch e c)); [apply IH, Hfinal ..| congruence].
Qed.

(** No session whose handlers do not overlap ends in a render error: the
    answer updater finds the pair it writes to. *)
Lemma never_render_error (events : list Event) :
  is_Some (after events initial).
Proof. apply after_total, initial_invariant. Qed.


(** ** The event loop *)

Lemma execute_app (steps steps' : list Step) :
  forall a a',
    execute steps a = Some a' ->
    execute (steps ++ steps') a = execute steps' a'.
Proof.
  induction steps as [|st steps IH]; intros a a'; cbn.
  - intros [= <-]. reflexivity.
  - destruct (step st a) as [a1|]; [apply IH | discriminate].
Qed.

(** A run of a handler that nothing interrupts is a run of the loop in
    which each promise of the handler settles at once. *)
Lemma run_as_steps (m : Async unit) (o : Oracle) :
  forall c,
    completion (run m o c) <> RenderError ->
    exists c1 waiting steps,
      advance m c = Some (c1, waiting) /\
      execute steps (mkApp c1 waiting) = Some (mkApp (final (run m o c)) []).
Proof.
  induction m as [x|message|u k IH|ch k IH]; intros c Hc; cbn in *.
  - exists c, [], []. split; reflexivity.
  - exists c, [], []. split; reflexivity.
  - destruct (u c) as [c'|]; [apply IH, Hc | destruct Hc; reflexivity].
  - destruct (IH (o ch) c Hc) as (c1 & waiting & steps & Hadv & Hex).
    exists c, [task ch k], (Settle 0 o :: steps).
    split; [reflexivity|]. cbn. rewrite Hadv. exact Hex.
Qed.

Lemma dispatch_as_steps (e : Event) (c : Controller) :
  completion (dispatch e c) <> RenderError ->
  exists steps,
    execute steps (mkApp c []) = Some (mkApp (final (dispatch e c)) []).
Proof.
  unfold dispatch. intros Hc.
  destruct (listener e c) as [h|] eqn:Hl.
  - destruct (run_as_steps h (oracle e) c Hc)
      as (c1 & waiting & steps & Hadv & Hex).
    exists (Start e :: steps). cbn. rewrite Hl, Hadv. exact Hex.
  - exists []. reflexivity.
Qed.

Lemma after_as_steps (events : list Event) :
  forall c c',
    after events c = Some c' ->
    exists steps, execute steps (mkApp c []) = Some (mkApp c' []).
Proof.
  induction events as [|e events IH]; intros c c'; cbn.
  - intros [= <-]. exists []. reflexivity.
  - intros H.
    assert (Hc : completion (dispatch e c) <> RenderError)
      by (intros E; rewrite E in H; discriminate).
    assert (H' : after events (final (dispatch e c)) = Some c')
      by (revert H Hc; destruct (completion (dispatch e c)); intros H Hc;
          [exact H ..| congruence]).
    destruct (dispatch_as_steps e c Hc) as [steps Hsteps].
    destruct (IH _ _ H') as [steps' Hsteps'].
    exists (steps ++ steps').
    rewrite (execute_app _ _ _ _ Hsteps). exact Hsteps'.
Qed.

(** The sessions whose handlers do not overlap are runs of the loop. *)
Lemma after_reachable (events : list Event) (c : Controller) :
  after events initial = Some c -> reachable c.
Proof.
  intros H. destruct (after_as_steps events initial c H) as [steps Hsteps].
  exists steps, (mkApp c []). split; [exact Hsteps | reflexivity].
Qed.

(** ** Handlers that do not touch the story text *)

Ltac open_controller c :=
  destruct c as [[?a ?er ?st ?q ?i ?cp] ?ref ?tm ?nx].














(** ** Handlers waiting for the questions *)













(** ** Sessions whose handlers do not overlap *)

Lemma dispatch_shown (e : Event) (c : Controller) :
  invariant c -> Forall invariant (visited (dispatch e c)).
Proof.
  intros H. destruct (dispatch_visited e c H) as [_ Hall].
  apply Forall_cons in Hall as [[Hfinal _] Hsusp].
  unfold visited. apply Forall_app. split.
  - eapply Forall_impl; [exact Hsusp|]. intros c' [Hc' _]. exact Hc'.
  - constructor; [exact Hfinal | constructor].
Qed.

Lemma after_monotone (events : list Event) :
  forall c c',
    invariant c ->
    Forall (fun e => is_reset e = false) events ->
    after events c = Some c' ->
    currentQuestionIndex (session c) <= currentQuestionIndex (session c').
Proof.
  induction events as [|e events IH]; intros c c' H Hev; cbn.
  - intros [= <-]. lia.
  - apply Forall_cons in Hev as [He Hev].
    destruct (dispatch_visited e c H) as [Hcompl Hall].
    apply Forall_cons in Hall as [[Hfinal Hle] _].
    specialize (Hle He). intros Hafter.
    assert (H' : after events (final (dispatch e c)) = Some c')
      by (revert Hafter Hcompl; destruct (completion (dispatch e c));
          intros Hafter Hcompl; [exact Hafter ..| congruence]).
    specialize (IH _ _ Hfinal Hev H'). lia.
Qed.
(** * The claims *)

(** C1.  The bound does not hold of the component.  The sample session
    reaches the recording of the first answer; two clicks on I'm Done
    Answering come before [stopRecording()] settles, so both handlers are
    created with index 0 and length 2; each one passes the test
    [0 < 2 - 1] at its turn and adds 1.  The loop ends with no handler
    suspended, presenting a question at index 2 of 2 pairs, where
    [renderContent] reads a pair that does not exist. *)
Theorem index_past_last_pair :
  exists a,
    execute (toRecordingAnswer ++ doubleDone) initialApp = Some a /\
    reachable (controller a) /\
    inflight a = [] /\
    appState (session (controller a)) = PRESENTING_QUESTION /\
    alength (qnaPairs (session (controller a))) = 2 /\
    currentQuestionIndex (session (controller a)) = 2 /\
    renderContent true (session (controller a)) = None.
Proof.
  eexists. split; [vm_compute; reflexivity|].
  split; [|repeat split].
  eexists (toRecordingAnswer ++ doubleDone), _.
  split; [vm_compute; reflexivity | reflexivity].
Qed.

(** C2.  In the same run the transcript of the first handler answers
    question 0 and the index moves to 1.  The second handler still waits
    for its transcript, of an answer to question 0 as well; when it
    arrives the answer to question 0 is replaced and the index moves to
    2: the component presents a question at index 2, not 1. *)
Theorem answer_advances_twice :
  exists a a',
    execute (toRecordingAnswer ++ firstDone) initialApp = Some a /\
    awaitedCalls a = [transcribeAudio sampleBlob] /\
    appState (session (controller a)) = PRESENTING_QUESTION /\
    currentQuestionIndex (session (controller a)) = 1 /\
    map answer (qnaPairs (session (controller a))) = [sampleAnswer; []] /\
    step (Settle 0 otherOracle) a = Some a' /\
    appState (session (controller a')) = PRESENTING_QUESTION /\
    currentQuestionIndex (session (controller a')) = 2 /\
    map answer (qnaPairs (session (controller a'))) = [otherAnswer; []].
Proof.
  eexists. eexists. split; [vm_compute; reflexivity|].
  do 4 (split; [reflexivity|]).
  split; [vm_compute; reflexivity|].
  repeat split.
Qed.

(** C3.  When the story transcript has fewer than 10 code units once
    trimmed, the handler ends in [ERROR] with the too-short message,
    whatever the transcript is, and issues no question-generation
    request. *)
Theorem transcript_too_short (c : Controller) (o : Oracle)
    (audioBlob : Blob) (transcription : jsstring) :
  o stopRecording = fulfilled (Some audioBlob) ->
  o (transcribeAudio audioBlob) = fulfilled transcription ->
  JS.length (trim transcription) < 10 ->
  let r := run (handleStopStoryRecording true) o c in
  appState (session (final r)) = ERROR /\
  error (session (final r)) = Some too_short_message /\
  forall story, generateComprehensionQuestions story ∉ requests r.
Proof.
  intros Hb Ht Hlen. 
  cbn. rewrite Hb. cbn.
  rewrite Ht.  cbn. rewrite (too_short_guard _ Hlen). cbn.
  repeat split. intros story Hin. 
  repeat (apply elem_of_cons in Hin as [Hin|Hin]; [discriminate|]). inversion Hin.
Qed.

Lemma transcript_too_short_witness :
  let o := answering (Some sampleBlob) (lit "ok") [] in
  let r := run (handleStopStoryRecording true) o initial in
  appState (session (final r)) = ERROR /\
  error (session (final r)) = Some too_short_message /\
  forall story, generateComprehensionQuestions story ∉ requests r.
Proof.
  apply (transcript_too_short initial (answering (Some sampleBlob) (lit "ok") [])
           sampleBlob (lit "ok"));
    [reflexivity | reflexivity | vm_compute; reflexivity].
Defined.







(** C6.  The recorder is active and returns no audio.  While recording the
    story the session is reset to the initial one; while recording an
    answer the handler changes nothing and the state stays
    [RECORDING_ANSWER]. *)
Theorem stop_without_audio :
  let o := answering None [] [] in
  let story := default initial (after toStoryRecording initial) in
  let answer := default initial (after toFirstAnswer initial) in
  (appState (session story) = RECORDING_STORY /\
   session (final (dispatch (ClickStopReading true o) story))
   = initialSession) /\
  (appState (session answer) = RECORDING_ANSWER /\
   requests (dispatch (ClickDoneAnswering true o) answer) = [stopRecording] /\
   final (dispatch (ClickDoneAnswering true o) answer) = answer /\
   appState (session (final (dispatch (ClickDoneAnswering true o) answer)))
   <> IDLE).
Proof. vm_compute. repeat split; discriminate. Qed.

(** C7.  With [isRecording] false, stopping the story recording and
    stopping the answer recording leave the session (state tag, error,
    story text, pairs, index, copied flag) as it was and issue no request
    at all. *)
Theorem stop_when_not_recording (c : Controller) (o : Oracle) (i n : Z) :
  let story := run (handleStopStoryRecording false) o c in
  let answer := run (handleStopAnswerRecording false i n) o c in
  (session (final story) = session c /\ requests story = []) /\
  (session (final answer) = session c /\ requests answer = []).
Proof. destruct c as [s [id|] tm nx]; cbn; repeat split. Qed.

(** C8.  From any state, reset leaves [IDLE] with an empty story text, no
    pairs, index 0 and no error. *)
Theorem reset_clears_session (c : Controller) :
  let r := run handleReset silent c in
  completion r = Returned tt /\
  requests r = [] /\
  appState (session (final r)) = IDLE /\
  storyText (session (final r)) = [] /\
  qnaPairs (session (final r)) = [] /\
  currentQuestionIndex (session (final r)) = 0 /\
  error (session (final r)) = None.
Proof. destruct c as [s [id|] tm nx]; cbn; repeat split. Qed.

(** ** The copy/share text *)

Lemma or_else_placeholder (pair : QnAPair) :
  or_else (answer pair) (lit "No answer recorded.") = answer_or_placeholder pair.
Proof. unfold or_else, answer_or_placeholder. destruct (answer pair); reflexivity. Qed.

Lemma forEach_from_entries (pairs : list QnAPair) :
  forall (n : nat) (text : jsstring),
    forEach_from
      (fun text pair index =>
         let text :=
           text ++ (lit "Question " ++ ofNumber (index + 1) ++ lit ": "
                    ++ question pair ++ LF) in
         text ++ (lit "Answer: "
                  ++ or_else (answer pair) (lit "No answer recorded.")
                  ++ LF ++ LF))
      (Z.of_nat n) pairs text
    = text ++ concat (imap (fun k => share_entry (n + k)) pairs).
Proof.
  induction pairs as [|pair pairs IH]; intros n text; cbn [forEach_from imap concat].
  - now rewrite app_nil_r.
  - replace (Z.of_nat n + 1) with (Z.of_nat (S n)) by lia.
    rewrite IH. cbn zeta. rewrite or_else_placeholder.
    unfold share_entry at 2. rewrite Nat.add_0_r.
    rewrite (imap_ext (fun k => share_entry (S n + k))
                      ((fun k => share_entry (n + k)) ∘ S) pairs)
      by (intros k x _; cbn; f_equal; lia).
    now rewrite <- !app_assoc.
Qed.

(** C9.  The copy/share text built by [getShareableText] is the layout of
    the interface description: header, story section, and the pairs in
    order as [Question k: ...] and [Answer: ...], with
    [No answer recorded.] exactly for the empty answers. *)
Theorem share_text_layout (storyText : jsstring) (qnaPairs : list QnAPair) :
  getShareableText storyText qnaPairs = share_layout storyText qnaPairs.
Proof.
  unfold getShareableText, forEach, share_layout. cbn zeta.
  rewrite (forEach_from_entries qnaPairs 0).
  now rewrite <- !app_assoc.
Qed.

(** C10.  Processing a transcribed answer for the question at a valid
    index [i] leaves the story text, the error and the copied flag as they
    were, keeps the number of pairs and every question, and changes no
    answer but the one at [i], which becomes the transcript. *)
Theorem answer_frame (c : Controller) (o : Oracle)
    (audioBlob : Blob) (answerText : jsstring) :
  let i := currentQuestionIndex (session c) in
  let n := alength (qnaPairs (session c)) in
  0 <= i < n ->
  o stopRecording = fulfilled (Some audioBlob) ->
  o (transcribeAudio audioBlob) = fulfilled answerText ->
  let r := run (handleStopAnswerRecording true i n) o c in
  let s' := session (final r) in
  completion r = Returned tt /\
  storyText s' = storyText (session c) /\
  error s' = error (session c) /\
  copied s' = copied (session c) /\
  List.length (qnaPairs s') = List.length (qnaPairs (session c)) /\
  forall k pair, qnaPairs (session c) !! k = Some pair ->
    exists pair',
      qnaPairs s' !! k = Some pair' /\
      question pair' = question pair /\
      (k = Z.to_nat i -> answer pair' = answerText) /\
      (k <> Z.to_nat i -> answer pair' = answer pair).
Proof.
  destruct c as [[a er st q i cp] ref tm nx]. cbn zeta. cbn [session currentQuestionIndex qnaPairs].
  intros Hrange Hb Ht.
  unfold handleStopAnswerRecording. cbn. rewrite Hb. cbn. rewrite Ht. cbn.
  rewrite (write_answer_in_range i answerText q Hrange). cbn.
  assert (Hpairs : forall k pair, q !! k = Some pair ->
    exists pair',
      alter (fun pair => mkQnAPair (question pair) answerText) (Z.to_nat i) q !! k
        = Some pair' /\
      question pair' = question pair /\
      (k = Z.to_nat i -> answer pair' = answerText) /\
      (k <> Z.to_nat i -> answer pair' = answer pair)).
  { intros k pair Hk. destruct (decide (k = Z.to_nat i)) as [->|Hne].
    - eexists. rewrite list_lookup_alter_eq, Hk. cbn. split; [reflexivity|].
      cbn. split; [reflexivity|]. split; [reflexivity | congruence].
    - exists pair. rewrite list_lookup_alter_ne by congruence.
      split; [exact Hk|]. split; [reflexivity|]. split; [congruence | reflexivity]. }
  destruct (i <? alength q - 1); cbn.
  all: repeat split; try apply length_alter; exact Hpairs.
Qed.

Lemma answer_frame_witness :
  let c := default initial (after toFirstAnswer initial) in
  let r := run (handleStopAnswerRecording true 0 2) answerOracle c in
  storyText (session (final r)) = sampleStory /\
  error (session (final r)) = None.
Proof.
  pose proof (answer_frame (default initial (after toFirstAnswer initial))
                answerOracle sampleBlob sampleAnswer) as H.
  cbn zeta in H.
  destruct H as (_ & Hstory & Herror & _).
  - split; [vm_compute; discriminate | vm_compute; reflexivity].
  - reflexivity.
  - reflexivity.
  - split; [exact Hstory | exact Herror].
Defined.

(** * Further properties of the handlers *)

(** X1.  Starting the story recording with the microphone granted:
    [REQUESTING_PERMISSION] with the error cleared is shown while waiting,
    then the state is [RECORDING_STORY], the 60-second timer is pending
    under a fresh id that [recordingTimeoutRef] holds, and story text,
    pairs, index and copied flag are as before. *)
Theorem start_story_recording_granted (c : Controller) (o : Oracle) :
  o startRecording = fulfilled tt ->
  let r := run handleStartStoryRecording o c in
  completion r = Returned tt /\
  suspended r =
    [(on_session (fun s => mkSession REQUESTING_PERMISSION None (storyText s)
                             (qnaPairs s) (currentQuestionIndex s) (copied s)) c,
      startRecording)] /\
  appState (session (final r)) = RECORDING_STORY /\
  error (session (final r)) = None /\
  same_content (session c) (session (final r)) /\
  recordingTimeoutRef (final r) = Some (nextTimer c) /\
  timers (final r) = (nextTimer c, AutoStopStory) :: timers c.
Proof.
  intros Hstart. open_controller c. cbn. rewrite Hstart. cbn.
  unfold same_content. cbn. repeat split.
Qed.

Lemma start_story_recording_granted_witness :
  let r := run handleStartStoryRecording storyOracle initial in
  appState (session (final r)) = RECORDING_STORY /\
  timers (final r) = [(1%nat, AutoStopStory)].
Proof.
  pose proof (start_story_recording_granted initial storyOracle eq_refl) as H.
  cbn zeta in H. destruct H as (_ & _ & Hst & _ & _ & _ & Htm).
  split; [exact Hst | exact Htm].
Defined.

(** X2.  Starting an answer recording with the microphone granted ends in
    [RECORDING_ANSWER] with the error cleared; story text, pairs, index and
    copied flag are as before and no timer is armed: an answer has no
    automatic stop. *)
Theorem start_answer_recording_granted (c : Controller) (o : Oracle) :
  o startRecording = fulfilled tt ->
  let r := run handleStartAnswerRecording o c in
  completion r = Returned tt /\
  requests r = [startRecording] /\
  appState (session (final r)) = RECORDING_ANSWER /\
  error (session (final r)) = None /\
  same_content (session c) (session (final r)) /\
  recordingTimeoutRef (final r) = recordingTimeoutRef c /\
  timers (final r) = timers c.
Proof.
  intros Hstart. open_controller c. cbn. rewrite Hstart. cbn.
  unfold same_content. cbn. repeat split.
Qed.

Lemma start_answer_recording_granted_witness :
  let r := run handleStartAnswerRecording answerOracle initial in
  appState (session (final r)) = RECORDING_ANSWER /\ timers (final r) = [].
Proof.
  pose proof (start_answer_recording_granted initial answerOracle eq_refl) as H.
  cbn zeta in H. destruct H as (_ & _ & Hst & _ & _ & _ & Htm).
  split; [exact Hst | exact Htm].
Defined.

(** X3.  When [startRecording] is rejected, either start handler ends in
    [ERROR] with the rejection's message; nothing else of the session
    changes and no timer is armed. *)
Theorem start_recording_refused (c : Controller) (o : Oracle)
    (message : jsstring) (h : Async unit) :
  o startRecording = rejected message ->
  h = handleStartStoryRecording \/ h = handleStartAnswerRecording ->
  let r := run h o c in
  completion r = Returned tt /\
  requests r = [startRecording] /\
  appState (session (final r)) = ERROR /\
  error (session (final r)) = Some message /\
  same_content (session c) (session (final r)) /\
  recordingTimeoutRef (final r) = recordingTimeoutRef c /\
  timers (final r) = timers c.
Proof.
  intros Hstart [-> | ->]; open_controller c; cbn; rewrite Hstart; cbn.
  all: unfold same_content; cbn; repeat split.
Qed.

Lemma start_recording_refused_witness :
  let r := run handleStartStoryRecording (refusing (lit "Permission denied")) initial in
  appState (session (final r)) = ERROR /\
  error (session (final r)) = Some (lit "Permission denied").
Proof.
  pose proof (start_recording_refused initial (refusing (lit "Permission denied"))
                (lit "Permission denied") handleStartStoryRecording
                eq_refl (or_introl eq_refl)) as H.
  cbn zeta in H. destruct H as (_ & _ & Hst & Herr & _).
  split; [exact Hst | exact Herr].
Defined.

(** *** Stopping the story recording *)

(** X4.  When the transcription of the story is rejected, the handler ends
    in [ERROR] with the rejection's message after exactly two requests;
    story text, pairs, index and copied flag are as before. *)
Theorem story_transcription_fails (c : Controller) (o : Oracle)
    (audioBlob : Blob) (message : jsstring) :
  o stopRecording = fulfilled (Some audioBlob) ->
  o (transcribeAudio audioBlob) = rejected message ->
  let r := run (handleStopStoryRecording true) o c in
  completion r = Returned tt /\
  requests r = [stopRecording; transcribeAudio audioBlob] /\
  appState (session (final r)) = ERROR /\
  error (session (final r)) = Some message /\
  same_content (session c) (session (final r)).
Proof.
  intros Hb Ht. open_controller c. destruct ref; cbn.
  all: rewrite Hb; cbn; rewrite Ht; cbn.
  all: unfold same_content; cbn; repeat split.
Qed.

Lemma story_transcription_fails_witness :
  let o : Oracle := fun c =>
    match c as c0 return Settled (Resolved c0) with
    | stopRecording => fulfilled (Some sampleBlob)
    | _ => rejected (lit "Network error")
    end in
  let r := run (handleStopStoryRecording true) o initial in
  appState (session (final r)) = ERROR /\
  error (session (final r)) = Some (lit "Network error").
Proof.
  cbn zeta.
  match goal with
  | |- context [run _ ?o _] =>
      pose proof (story_transcription_fails initial o sampleBlob
                    (lit "Network error") eq_refl eq_refl) as H
  end.
  cbn zeta in H. destruct H as (_ & _ & Hst & Herr & _).
  split; [exact Hst | exact Herr].
Defined.

(** X5.  When question generation is rejected for a valid transcript, the
    handler ends in [ERROR] with the rejection's message; the story text is
    already the transcript, pairs and index are as before. *)
Theorem question_generation_fails (c : Controller) (o : Oracle)
    (audioBlob : Blob) (transcription message : jsstring) :
  o stopRecording = fulfilled (Some audioBlob) ->
  o (transcribeAudio audioBlob) = fulfilled transcription ->
  10 <= JS.length (trim transcription) ->
  o (generateComprehensionQuestions transcription) = rejected message ->
  let r := run (handleStopStoryRecording true) o c in
  completion r = Returned tt /\
  appState (session (final r)) = ERROR /\
  error (session (final r)) = Some message /\
  storyText (session (final r)) = transcription /\
  qnaPairs (session (final r)) = qnaPairs (session c) /\
  currentQuestionIndex (session (final r)) = currentQuestionIndex (session c).
Proof.
  intros Hb Ht Hlen Hq. open_controller c. destruct ref; cbn.
  all: rewrite Hb; cbn; rewrite Ht; cbn.
  all: rewrite (long_enough_guard _ Hlen); cbn; rewrite Hq; cbn.
  all: repeat split.
Qed.

Lemma question_generation_fails_witness :
  let o : Oracle := fun c =>
    match c as c0 return Settled (Resolved c0) with
    | stopRecording => fulfilled (Some sampleBlob)
    | transcribeAudio _ => fulfilled sampleStory
    | _ => rejected (lit "Quota exceeded")
    end in
  let r := run (handleStopStoryRecording true) o initial in
  appState (session (final r)) = ERROR /\
  storyText (session (final r)) = sampleStory.
Proof.
  cbn zeta.
  match goal with
  | |- context [run _ ?o _] =>
      pose proof (question_generation_fails initial o sampleBlob sampleStory
                    (lit "Quota exceeded") eq_refl eq_refl) as H
  end.
  cbn zeta in H. destruct H as (_ & Hst & _ & Hstory & _).
  - vm_compute. discriminate.
  - reflexivity.
  - split; [exact Hst | exact Hstory].
Defined.

(** X6.  For a transcript that is long enough the handler issues
    [stopRecording], [transcribeAudio] and [generateComprehensionQuestions]
    in this order, the last with the transcript as transcribed, untrimmed;
    every state shown meanwhile has the starting tag or [PROCESSING_STORY],
    and the timer reference ends empty. *)
Theorem story_requests_in_order (c : Controller) (o : Oracle)
    (audioBlob : Blob) (transcription : jsstring) :
  o stopRecording = fulfilled (Some audioBlob) ->
  o (transcribeAudio audioBlob) = fulfilled transcription ->
  10 <= JS.length (trim transcription) ->
  let r := run (handleStopStoryRecording true) o c in
  requests r =
    [stopRecording; transcribeAudio audioBlob;
     generateComprehensionQuestions transcription] /\
  (forall c', In c' (suspended r).*1 ->
     appState (session c') = appState (session c) \/
     appState (session c') = PROCESSING_STORY) /\
  recordingTimeoutRef (final r) = None.
Proof.
  intros Hb Ht Hlen. open_controller c. destruct ref; cbn.
  all: rewrite Hb; cbn; rewrite Ht; cbn.
  all: rewrite (long_enough_guard _ Hlen); cbn.
  all: destruct (o (generateComprehensionQuestions transcription)); cbn.
  all: try destruct (alength value >? 0); cbn.
  all: split; [reflexivity|]; split; [|reflexivity].
  all: intros c' Hin; repeat (destruct Hin as [<-|Hin]; [cbn; auto|]);
       destruct Hin.
Qed.

Lemma story_requests_in_order_witness :
  requests (run (handleStopStoryRecording true) storyOracle initial)
  = [stopRecording; transcribeAudio sampleBlob;
     generateComprehensionQuestions sampleStory].
Proof.
  refine (proj1 (story_requests_in_order initial storyOracle sampleBlob
                   sampleStory eq_refl eq_refl _)).
  vm_compute. discriminate.
Defined.

(** *** Whitespace *)

Lemma trimStart_whitespace (s : jsstring) :
  forallb isWhiteSpace s = true -> trimStart s = [].
Proof.
  induction s as [|ch s IH]; cbn; [reflexivity|].
  destruct (isWhiteSpace ch); cbn; [exact IH | discriminate].
Qed.

Lemma trim_whitespace (s : jsstring) :
  forallb isWhiteSpace s = true -> trim s = [].
Proof.
  intros H. unfold trim, trimEnd. now rewrite (trimStart_whitespace s H).
Qed.

(** X7.  A transcript made of white space only, however long, ends in
    [ERROR] with the too-short message; no question is requested. *)
Theorem blank_transcript_is_too_short (c : Controller) (o : Oracle)
    (audioBlob : Blob) (transcription : jsstring) :
  o stopRecording = fulfilled (Some audioBlob) ->
  o (transcribeAudio audioBlob) = fulfilled transcription ->
  forallb isWhiteSpace transcription = true ->
  let r := run (handleStopStoryRecording true) o c in
  appState (session (final r)) = ERROR /\
  error (session (final r)) = Some too_short_message /\
  requests r = [stopRecording; transcribeAudio audioBlob].
Proof.
  intros Hb Ht Hblank. open_controller c. destruct ref; cbn.
  all: rewrite Hb; cbn; rewrite Ht; cbn.
  all: rewrite too_short_guard
         by (rewrite (trim_whitespace _ Hblank); vm_compute; reflexivity).
  all: cbn; repeat split.
Qed.

Lemma blank_transcript_is_too_short_witness :
  let blank := lit "                    " ++ LF in
  let o := answering (Some sampleBlob) blank sampleQuestions in
  JS.length blank = 21 /\
  appState (session (final (run (handleStopStoryRecording true) o initial)))
  = ERROR.
Proof.
  split; [reflexivity|].
  refine (proj1 (blank_transcript_is_too_short initial
            (answering (Some sampleBlob) (lit "                    " ++ LF)
               sampleQuestions)
            sampleBlob (lit "                    " ++ LF) eq_refl eq_refl _)).
  reflexivity.
Defined.

(** *** The recorder returns nothing, or fails *)

(** X8.  When the recorder returns no audio for the story, the handler
    resets: the session is the initial one, whatever it was, after the
    single request [stopRecording]. *)
Theorem story_without_audio_resets (c : Controller) (o : Oracle) :
  o stopRecording = fulfilled None ->
  let r := run (handleStopStoryRecording true) o c in
  completion r = Returned tt /\
  requests r = [stopRecording] /\
  session (final r) = initialSession /\
  recordingTimeoutRef (final r) = None.
Proof.
  intros Hb. open_controller c. destruct ref; cbn; rewrite Hb; cbn.
  all: repeat split.
Qed.

Lemma story_without_audio_resets_witness :
  let c := default initial (after toStoryRecording initial) in
  session (final (run (handleStopStoryRecording true)
                    (answering None [] []) c)) = initialSession.
Proof.
  refine (proj1 (proj2 (proj2 (story_without_audio_resets
            (default initial (after toStoryRecording initial))
            (answering None [] []) eq_refl)))).
Defined.

(** X9.  [stopRecording] is awaited outside the [try]: when it is rejected,
    both stop handlers end with the rejection uncaught and the session as it
    was, with no [ERROR] state. *)
Theorem stop_recording_rejection_uncaught (c : Controller) (o : Oracle)
    (message : jsstring) (i n : Z) :
  o stopRecording = rejected message ->
  let story := run (handleStopStoryRecording true) o c in
  let answer := run (handleStopAnswerRecording true i n) o c in
  (completion story = Uncaught message /\
   session (final story) = session c /\
   recordingTimeoutRef (final story) = None) /\
  (completion answer = Uncaught message /\ final answer = c).
Proof.
  intros Hb. open_controller c. unfold handleStopAnswerRecording.
  destruct ref; cbn; rewrite Hb; cbn; repeat split.
Qed.

Lemma stop_recording_rejection_uncaught_witness :
  let c := default initial (after toFirstAnswer initial) in
  final (run (handleStopAnswerRecording true 0 2)
           (refusing (lit "InvalidStateError")) c) = c.
Proof.
  refine (proj2 (proj2 (stop_recording_rejection_uncaught
            (default initial (after toFirstAnswer initial))
            (refusing (lit "InvalidStateError")) (lit "InvalidStateError")
            0 2 eq_refl))).
Defined.

(** *** Stopping the answer recording *)

(** X10.  When the transcription of an answer is rejected, the handler ends
    in [ERROR] with the rejection's message after two requests; pairs,
    index, story text and copied flag are as before. *)
Theorem answer_transcription_fails (c : Controller) (o : Oracle)
    (audioBlob : Blob) (message : jsstring) (i n : Z) :
  o stopRecording = fulfilled (Some audioBlob) ->
  o (transcribeAudio audioBlob) = rejected message ->
  let r := run (handleStopAnswerRecording true i n) o c in
  completion r = Returned tt /\
  requests r = [stopRecording; transcribeAudio audioBlob] /\
  appState (session (final r)) = ERROR /\
  error (session (final r)) = Some message /\
  same_content (session c) (session (final r)).
Proof.
  intros Hb Ht. open_controller c. unfold handleStopAnswerRecording. cbn.
  rewrite Hb; cbn; rewrite Ht; cbn.
  unfold same_content; cbn; repeat split.
Qed.

Lemma answer_transcription_fails_witness :
  let c := default initial (after toFirstAnswer initial) in
  let o := recorderOnly (Some sampleBlob) (lit "Network error") in
  let r := run (handleStopAnswerRecording true 0 2) o c in
  appState (session (final r)) = ERROR /\
  qnaPairs (session (final r)) = qnaPairs (session c).
Proof.
  pose proof (answer_transcription_fails
                (default initial (after toFirstAnswer initial))
                (recorderOnly (Some sampleBlob) (lit "Network error"))
                sampleBlob (lit "Network error") 0 2 eq_refl eq_refl) as H.
  cbn zeta in H. destruct H as (_ & _ & Hst & _ & _ & Hq & _).
  split; [exact Hst | exact Hq].
Defined.

(** *** Timers *)

(** X11.  Reset clears the copied flag and the timer reference and cancels
    exactly the timer the reference named: every other pending timer stays
    pending. *)
Theorem reset_spares_other_timers (c : Controller) :
  let r := run handleReset silent c in
  copied (session (final r)) = false /\
  recordingTimeoutRef (final r) = None /\
  nextTimer (final r) = nextTimer c /\
  forall id cb,
    In (id, cb) (timers (final r)) <->
    In (id, cb) (timers c) /\ recordingTimeoutRef c <> Some id.
Proof.
  open_controller c. destruct ref as [n|]; cbn.
  - do 3 (split; [reflexivity|]). intros id cb. split.
    + intros H. apply filter_In in H as [Hin H]. split; [exact Hin|].
      cbn in H. intros [= ->]. rewrite Nat.eqb_refl in H. discriminate.
    + intros [Hin Hne]. apply filter_In. split; [exact Hin|]. cbn.
      destruct (Nat.eqb_spec id n) as [->|]; [congruence | reflexivity].
  - do 3 (split; [reflexivity|]). intros id cb. split.
    + intros H. split; [exact H | discriminate].
    + intros [H _]. exact H.
Qed.

Lemma pending_None (id : nat) (c : Controller) :
  (forall cb, ~ In (id, cb) (timers c)) -> pending id c = None.
Proof.
  intros H. unfold pending.
  destruct (List.find _ (timers c)) as [[n cb]|] eqn:E; [|reflexivity].
  apply find_some in E as [Hin Heq]. cbn in Heq.
  apply Nat.eqb_eq in Heq as ->. destruct (H cb Hin).
Qed.

Lemma other_timers_spec (id n : nat) (cb : TimerCallback) tm :
  In (n, cb) (other_timers id tm) <-> In (n, cb) tm /\ n <> id.
Proof.
  unfold other_timers. rewrite filter_In. cbn.
  destruct (Nat.eqb_spec n id); cbn; intuition congruence.
Qed.

(** The handler of the 60-second timer only ever removes timers. *)
Lemma handleStopStoryRecording_timers (isRecording : bool) (o : Oracle)
    (bound : list (nat * TimerCallback)) (c : Controller) :
  incl (timers c) bound ->
  always (fun c' => incl (timers c') bound)
         (handleStopStoryRecording isRecording) o c.
Proof.
  intros H. open_controller c. cbn in H.
  assert (Hf : forall n, incl (other_timers n tm) bound).
  { intros n x Hx. apply H. apply filter_In in Hx as [Hx _]. exact Hx. }
  unfold other_timers in Hf.
  destruct ref; settle; cbn; auto.
Qed.

(** X12.  When a timer fires, its id is pending in no state of the run that
    follows, whatever the callback does: it cannot fire a second time. *)
Theorem timer_fires_once (c : Controller) (id : nat) (isRecording : bool)
    (o : Oracle) :
  let r := dispatch (TimerFires id isRecording o) c in
  completion r <> RenderError /\
  Forall (fun c' => pending id c' = None) (final r :: (suspended r).*1).
Proof.
  cbn zeta. unfold dispatch, listener.
  destruct (pending id c) as [cb|] eqn:Hcb.
  - apply run_always.
    change (always (fun c' => pending id c' = None)
              (callback cb) (oracle (TimerFires id isRecording o))
              (clearTimeout id c)).
    assert (Hgone : forall c', incl (timers c') (other_timers id (timers c)) ->
                               pending id c' = None).
    { intros c' Hincl. apply pending_None. intros cb' Hin.
      apply Hincl, other_timers_spec in Hin as [_ Hne]. congruence. }
    destruct cb; cbn [callback].
    + eapply always_impl; [exact Hgone|].
      apply handleStopStoryRecording_timers. apply incl_refl.
    + apply Hgone. apply incl_refl.
    + apply Hgone. apply incl_refl.
  - cbn. split; [discriminate|]. constructor; [exact Hcb | constructor].
Qed.

(** *** Copy and share *)

(** X13.  When the clipboard write succeeds, the copied flag is set, a timer
    that will clear it is pending, and nothing else of the session changes;
    the text written is [getShareableText] of the story and pairs. *)
Theorem copy_sets_copied_flag (c : Controller) (o : Oracle)
    (story : jsstring) (pairs : list QnAPair) :
  o (clipboard_writeText (getShareableText story pairs)) = fulfilled tt ->
  let r := run (handleCopyToClipboard story pairs) o c in
  completion r = Returned tt /\
  suspended r = [(c, clipboard_writeText (getShareableText story pairs))] /\
  session (final r)
  = mkSession (appState (session c)) (error (session c))
      (storyText (session c)) (qnaPairs (session c))
      (currentQuestionIndex (session c)) true /\
  recordingTimeoutRef (final r) = recordingTimeoutRef c /\
  timers (final r) = (nextTimer c, ClearCopied) :: timers c.
Proof.
  intros Hw. open_controller c. cbn. rewrite Hw. cbn. repeat split.
Qed.

(** X14.  Copy, then the timer it armed: the copied flag is true in between
    and false afterwards, the rest of the session is as before the copy, and
    the timer is gone. *)
Theorem copy_flag_expires (c : Controller) (o o' : Oracle)
    (story : jsstring) (pairs : list QnAPair) (isRecording : bool) :
  o (clipboard_writeText (getShareableText story pairs)) = fulfilled tt ->
  let copied_state := final (run (handleCopyToClipboard story pairs) o c) in
  let r := dispatch (TimerFires (nextTimer c) isRecording o') copied_state in
  copied (session copied_state) = true /\
  requests r = [] /\
  session (final r)
  = mkSession (appState (session c)) (error (session c))
      (storyText (session c)) (qnaPairs (session c))
      (currentQuestionIndex (session c)) false /\
  timers (final r) = other_timers (nextTimer c) (timers c).
Proof.
  intros Hw. open_controller c. cbn. rewrite Hw. cbn.
  unfold dispatch, listener, pending. cbn. rewrite Nat.eqb_refl. cbn.
  rewrite Nat.eqb_refl. cbn. repeat split.
Qed.

(** X15.  A rejected clipboard write changes nothing: the promise chain has
    no catch. *)
Theorem copy_rejection_is_dropped (c : Controller) (o : Oracle)
    (story : jsstring) (pairs : list QnAPair) (message : jsstring) :
  o (clipboard_writeText (getShareableText story pairs)) = rejected message ->
  let r := run (handleCopyToClipboard story pairs) o c in
  completion r = Returned tt /\ final r = c.
Proof.
  intros Hw. cbn. rewrite Hw. cbn. split; reflexivity.
Qed.

(** X16.  A share that completes changes nothing; the share sheet receives
    the title and [getShareableText] of the story and pairs. *)
Theorem share_completed (c : Controller) (o : Oracle)
    (story : jsstring) (pairs : list QnAPair) :
  o (navigator_share (lit "Reading Practice Results")
       (getShareableText story pairs)) = fulfilled tt ->
  let r := run (handleShare true story pairs) o c in
  completion r = Returned tt /\
  requests r = [navigator_share (lit "Reading Practice Results")
                  (getShareableText story pairs)] /\
  final r = c.
Proof.
  intros Hs. cbn. rewrite Hs. cbn. repeat split.
Qed.

(** X17.  A share that is rejected sets the error to the cancellation notice
    and arms the timer that clears it; the state tag stays what it was (no
    [ERROR] state). *)
Theorem share_cancelled (c : Controller) (o : Oracle)
    (story : jsstring) (pairs : list QnAPair) (message : jsstring) :
  o (navigator_share (lit "Reading Practice Results")
       (getShareableText story pairs)) = rejected message ->
  let r := run (handleShare true story pairs) o c in
  completion r = Returned tt /\
  session (final r)
  = mkSession (appState (session c)) (Some (lit "Sharing was cancelled."))
      (storyText (session c)) (qnaPairs (session c))
      (currentQuestionIndex (session c)) (copied (session c)) /\
  recordingTimeoutRef (final r) = recordingTimeoutRef c /\
  timers (final r) = (nextTimer c, ClearError) :: timers c.
Proof.
  intros Hs. open_controller c. cbn. rewrite Hs. cbn. repeat split.
Qed.

(** X18.  Without [navigator.share] the share handler runs exactly as the
    copy handler, also when the clipboard write is rejected. *)
Theorem share_falls_back_to_copy (c : Controller) (o : Oracle)
    (story : jsstring) (pairs : list QnAPair) :
  run (handleShare false story pairs) o c
  = run (handleCopyToClipboard story pairs) o c.
Proof.
  cbn. destruct (o (clipboard_writeText (getShareableText story pairs)));
    reflexivity.
Qed.

(** X19.  The timer armed by a cancelled share sets the error to null in
    whatever state it fires and leaves the rest of the session; it can
    fire in a reachable [ERROR] state and blank its message. *)
Theorem notice_timer_clears_any_error (c : Controller) (id : nat)
    (isRecording : bool) (o : Oracle) :
  pending id c = Some ClearError ->
  let r := dispatch (TimerFires id isRecording o) c in
  completion r = Returned tt /\
  requests r = [] /\
  session (final r)
  = mkSession (appState (session c)) None
      (storyText (session c)) (qnaPairs (session c))
      (currentQuestionIndex (session c)) (copied (session c)) /\
  timers (final r) = other_timers id (timers c).
Proof.
  intros Hp. cbn zeta. unfold dispatch, listener. rewrite Hp.
  open_controller c. cbn. repeat split.
Qed.

Lemma unanswered_nil (k0 : Z) : unanswered_from k0 [].
Proof. intros k pair Hk. rewrite lookup_nil in Hk. discriminate. Qed.

Lemma unanswered_fresh (k0 : Z) (questions : list jsstring) :
  unanswered_from k0 (map (fun q => mkQnAPair q []) questions).
Proof.
  intros k pair Hk _. revert k Hk.
  induction questions as [|q questions IH]; intros [|k]; cbn; try discriminate.
  - intros [= <-]. reflexivity.
  - apply IH.
Qed.

Lemma unanswered_alter (i : Z) (f : QnAPair -> QnAPair) (pairs : list QnAPair) :
  0 <= i ->
  unanswered_from i pairs ->
  unanswered_from (i + 1) (alter f (Z.to_nat i) pairs).
Proof.
  intros Hi H k pair Hk Hle.
  rewrite list_lookup_alter_ne in Hk by lia.
  apply (H k pair Hk). lia.
Qed.

Lemma in_order_same (c c' : Controller) :
  in_order c ->
  appState (session c') = appState (session c) ->
  qnaPairs (session c') = qnaPairs (session c) ->
  currentQuestionIndex (session c') = currentQuestionIndex (session c) ->
  in_order c'.
Proof.
  intros [Hopen Hdone] Ha Hq Hi. constructor; rewrite Ha, Hq, Hi; assumption.
Qed.

Ltac in_order_tac :=
  norm; constructor; norm; cbn;
  [ first [ intros Hne; exfalso; apply Hne; reflexivity
          | intros _;
            first [ assumption
                  | apply unanswered_nil
                  | apply unanswered_fresh
                  | apply unanswered_alter; [lia | assumption] ] ]
  | first [ discriminate 1
          | assumption
          | intros _; rewrite ?alength_alter;
            repeat match goal with
                   | H : (_ <? _) = false |- _ => apply Z.ltb_ge in H
                   end; lia ] ].

Ltac open_in_order H :=
  destruct H as [Hopen Hdone]; cbn in Hopen, Hdone;
  try (assert (Hopen' := Hopen ltac:(discriminate)); clear Hopen);
  try (assert (Hdone' := Hdone eq_refl); clear Hdone).

Ltac conclude := first [ assumption | solve [in_order_tac] ].

Lemma handleStartStoryRecording_in_order (o : Oracle) (c : Controller) :
  in_order c -> appState (session c) = IDLE ->
  always in_order handleStartStoryRecording o c.
Proof.
  intros P Hst. open_controller c. cbn in Hst. subst. open_in_order P.
  settle; conclude.
Qed.

Lemma handleStopStoryRecording_in_order (isRecording : bool) (o : Oracle)
    (c : Controller) :
  in_order c -> appState (session c) = RECORDING_STORY ->
  always in_order (handleStopStoryRecording isRecording) o c.
Proof.
  intros P Hst. open_controller c. cbn in Hst. subst. open_in_order P.
  settle; conclude.
Qed.

Lemma handleStartAnswerRecording_in_order (o : Oracle) (c : Controller) :
  in_order c -> appState (session c) = PRESENTING_QUESTION ->
  always in_order handleStartAnswerRecording o c.
Proof.
  intros P Hst. open_controller c. cbn in Hst. subst. open_in_order P.
  settle; conclude.
Qed.

Lemma handleStopAnswerRecording_in_order (isRecording : bool) (o : Oracle)
    (c : Controller) :
  invariant c -> in_order c -> appState (session c) = RECORDING_ANSWER ->
  always in_order
    (handleStopAnswerRecording isRecording
       (currentQuestionIndex (session c)) (alength (qnaPairs (session c))))
    o c.
Proof.
  intros H P Hst. open_invariant c H. in_state. open_in_order P.
  unfold handleStopAnswerRecording. settle; conclude.
Qed.

Lemma handleReset_in_order (o : Oracle) (c : Controller) :
  always in_order handleReset o c.
Proof. open_controller c. settle; conclude. Qed.

Lemma handleShare_in_order (o : Oracle) (c : Controller) :
  in_order c -> appState (session c) = SUMMARY ->
  always in_order
    (handleShare true (storyText (session c)) (qnaPairs (session c))) o c.
Proof.
  intros P Hst. open_controller c. cbn in Hst. subst. open_in_order P.
  settle; conclude.
Qed.

Lemma handleCopyToClipboard_in_order (o : Oracle) (c : Controller) :
  in_order c -> appState (session c) = SUMMARY ->
  always in_order
    (handleCopyToClipboard (storyText (session c)) (qnaPairs (session c))) o c.
Proof.
  intros P Hst. open_controller c. cbn in Hst. subst. open_in_order P.
  settle; conclude.
Qed.

Lemma callback_in_order (id : nat) (cb : TimerCallback)
    (o : Oracle) (c : Controller) :
  invariant c -> in_order c -> pending id c = Some cb ->
  always in_order (modify (clearTimeout id) ;; callback cb) o c.
Proof.
  intros H P Hcb. apply pending_In in Hcb.
  change (always in_order (callback cb) o (clearTimeout id c)).
  assert (P' : in_order (clearTimeout id c))
    by (eapply in_order_same; [exact P | reflexivity ..]).
  destruct cb.
  - destruct (inv_timer c H id Hcb) as [_ Hst].
    apply handleStopStoryRecording_in_order; assumption.
  - cbn. eapply in_order_same; [exact P | reflexivity ..].
  - cbn. eapply in_order_same; [exact P | reflexivity ..].
Qed.

Lemma dispatch_in_order (e : Event) (c : Controller) :
  invariant c -> in_order c ->
  always in_order
    (match listener e c with Some h => h | None => Return tt end)
    (oracle e) c.
Proof.
  intros H P. unfold listener.
  destruct e; cbn [oracle].
  9: { destruct (pending id c) eqn:Hcb; [|exact P].
       apply callback_in_order; assumption. }
  all: destruct (appState (session c)) eqn:Hst; try exact P.
  - apply handleStartStoryRecording_in_order; assumption.
  - apply handleStopStoryRecording_in_order; assumption.
  - apply handleStartAnswerRecording_in_order; assumption.
  - apply handleStopAnswerRecording_in_order; assumption.
  - apply handleReset_in_order.
  - apply handleReset_in_order.
  - apply handleShare_in_order; assumption.
  - destruct (copied (session c)); [exact P|].
    apply handleCopyToClipboard_in_order; assumption.
Qed.

Lemma dispatch_in_order_visited (e : Event) (c : Controller) :
  invariant c -> in_order c ->
  Forall in_order (final (dispatch e c) :: (suspended (dispatch e c)).*1).
Proof.
  intros H P. pose proof (dispatch_in_order e c H P) as Hall.
  unfold dispatch. destruct (listener e c) as [h|].
  - apply run_always in Hall. apply Hall.
  - cbn. constructor; [exact P | constructor].
Qed.

Lemma initial_in_order : in_order initial.
Proof.
  constructor; cbn; [intros _; apply unanswered_nil | discriminate].
Qed.

Lemma after_in_order (events : list Event) :
  forall c c',
    invariant c -> in_order c -> after events c = Some c' -> in_order c'.
Proof.
  induction events as [|e events IH]; intros c c' H P; cbn.
  - intros [= <-]. exact P.
  - destruct (dispatch_visited e c H) as [Hcompl Hall].
    apply Forall_cons in Hall as [[Hfinal _] _].
    pose proof (dispatch_in_order_visited e c H P) as HP.
    apply Forall_cons in HP as [Pfinal _].
    destruct (completion (dispatch e c)); [apply IH; assumption ..| congruence].
Qed.

Lemma dispatch_in_order_shown (e : Event) (c : Controller) :
  invariant c -> in_order c -> Forall in_order (visited (dispatch e c)).
Proof.
  intros H P. pose proof (dispatch_in_order_visited e c H P) as HP.
  apply Forall_cons in HP as [Pfinal Psusp].
  unfold visited. apply Forall_app. split; [exact Psusp|].
  constructor; [exact Pfinal | constructor].
Qed.

(** What holds of [c] and of every state the next handler shows, when it
    holds of every state of the invariant whose answers are in order. *)
Lemma serial_states (P : Controller -> Prop) (history : list Event)
    (c : Controller) (e : Event) :
  (forall c', invariant c' -> in_order c' -> P c') ->
  after history initial = Some c ->
  Forall P (c :: visited (dispatch e c)).
Proof.
  intros HP Hafter.
  assert (Hinv : invariant c)
    by (eapply after_invariant; [exact initial_invariant | exact Hafter]).
  assert (Hord : in_order c)
    by (eapply after_in_order;
        [exact initial_invariant | exact initial_in_order | exact Hafter]).
  constructor; [exact (HP c Hinv Hord)|].
  pose proof (dispatch_shown e c Hinv) as H1.
  pose proof (dispatch_in_order_shown e c Hinv Hord) as H2.
  rewrite List.Forall_forall in H1, H2. apply List.Forall_forall.
  intros c' Hin. apply HP; [apply H1 | apply H2]; exact Hin.
Qed.

(** X20.  In a session whose handlers do not overlap (each event is taken
    once the handler of the previous one has finished), in the state
    after any events and in every state the next handler shows: outside
    [SUMMARY] the pairs from the current index on have empty answers, so
    no answer is written over; in [SUMMARY] there is at least one pair
    and the index is the last one. *)
Theorem serial_answers_filled_in_order (history : list Event)
    (c : Controller) (e : Event) :
  after history initial = Some c ->
  Forall
    (fun c' =>
       let s := session c' in
       (appState s <> SUMMARY ->
        forall k pair, qnaPairs s !! k = Some pair ->
                       currentQuestionIndex s <= Z.of_nat k ->
                       answer pair = []) /\
       (appState s = SUMMARY ->
        qnaPairs s <> [] /\
        currentQuestionIndex s = alength (qnaPairs s) - 1))
    (c :: visited (dispatch e c)).
Proof.
  apply serial_states. clear. intros c [Hidx _ _ _ _] [Hopen Hdone].
  cbn zeta. split; [exact Hopen|].
  intros Hst. specialize (Hdone Hst). split; [|exact Hdone].
  unfold index_ok in Hidx. intros E. rewrite E in Hidx, Hdone.
  rewrite Hidx in Hdone. discriminate.
Qed.

Lemma serial_answers_filled_in_order_witness :
  let c := default initial (after toFirstAnswer initial) in
  let r := dispatch (ClickDoneAnswering true answerOracle) c in
  appState (session (final r)) = PRESENTING_QUESTION /\
  forall k pair, qnaPairs (session (final r)) !! k = Some pair ->
                 currentQuestionIndex (session (final r)) <= Z.of_nat k ->
                 answer pair = [].
Proof.
  split; [reflexivity|].
  pose proof (serial_answers_filled_in_order toFirstAnswer
                (default initial (after toFirstAnswer initial))
                (ClickDoneAnswering true answerOracle) eq_refl) as Hall.
  rewrite List.Forall_forall in Hall.
  refine (proj1 (Hall (final (dispatch (ClickDoneAnswering true answerOracle)
                                (default initial
                                   (after toFirstAnswer initial)))) _) _).
  - vm_compute. do 3 right. left. reflexivity.
  - discriminate.
Defined.

Lemma get_in_range {A} (a : list A) (i : Z) :
  0 <= i < alength a -> exists x, JS.get a i = Some x /\ a !! Z.to_nat i = Some x.
Proof.
  intros Hi. unfold JS.get. destruct (Z.ltb_spec i 0); [lia|].
  destruct (lookup_lt_is_Some_2 a (Z.to_nat i)) as [x Hx]; [|eauto].
  unfold alength in Hi. lia.
Qed.

(** X21.  In a session whose handlers do not overlap, in the state after
    any events and in every state the next handler shows, [renderContent]
    finds the pair it reads; the question view shows number
    [currentQuestionIndex + 1] of the number of pairs, between 1 and that
    total, with the question at that position. *)
Theorem serial_session_renders (history : list Event) (c : Controller)
    (e : Event) (navigator_share_defined : bool) :
  after history initial = Some c ->
  Forall
    (fun c' =>
       exists view,
         renderContent navigator_share_defined (session c') = Some view /\
         forall number total text,
           view = PresentingQuestionView number total text ->
           1 <= number <= total /\
           total = alength (qnaPairs (session c')) /\
           exists pair,
             qnaPairs (session c') !! Z.to_nat (number - 1) = Some pair /\
             question pair = text)
    (c :: visited (dispatch e c)).
Proof.
  apply serial_states. clear c. intros c [Hidx _ _ Hanswer _] _.
  unfold renderContent.
  destruct (appState (session c)) eqn:Hst; try (eexists; split; [reflexivity | discriminate]).
  - pose proof (index_ok_range _ Hidx (Hanswer eq_refl)) as Hrange.
    destruct (get_in_range _ _ Hrange) as (pair & -> & Hpair).
    eexists. split; [reflexivity|].
    intros number total text [= <- <- <-].
    split; [lia|]. split; [reflexivity|].
    exists pair. split; [|reflexivity].
    replace (currentQuestionIndex (session c) + 1 - 1)
      with (currentQuestionIndex (session c)) by lia. exact Hpair.
  - pose proof (index_ok_range _ Hidx (Hanswer eq_refl)) as Hrange.
    destruct (get_in_range _ _ Hrange) as (pair & -> & Hpair).
    eexists. split; [reflexivity | discriminate].
Qed.

Lemma serial_session_renders_witness :
  let c := default initial (after [ClickStartReading storyOracle;
                                   ClickStopReading true storyOracle] initial) in
  renderContent true (session c)
  = Some (PresentingQuestionView 1 2 (lit "Where did the cat sit?")).
Proof.
  cbn zeta.
  pose proof (serial_session_renders
                [ClickStartReading storyOracle;
                 ClickStopReading true storyOracle]
                (default initial (after [ClickStartReading storyOracle;
                                         ClickStopReading true storyOracle]
                                    initial))
                ClickStartOver true eq_refl) as Hall.
  apply Forall_cons in Hall as [(view & Hview & _) _].
  reflexivity.
Defined.

Lemma write_answer_after (done rest : list QnAPair) (p : QnAPair)
    (a : jsstring) :
  write_answer (alength done) a (done ++ p :: rest)
  = Some (done ++ mkQnAPair (question p) a :: rest).
Proof.
  rewrite write_answer_in_range.
  - unfold alength. rewrite Nat2Z.id.
    rewrite <- (Nat.add_0_r (List.length done)).
    now rewrite (alter_app_r _ done (p :: rest) 0).
  - unfold alength. rewrite length_app. cbn [List.length]. lia.
Qed.

Lemma after_cons (e : Event) (events : list Event) (c : Controller) :
  completion (dispatch e c) = Returned tt ->
  after (e :: events) c = after events (final (dispatch e c)).
Proof. intros H. cbn [after]. now rewrite H. Qed.

Lemma answer_click_step (o : Oracle) (story : jsstring)
    (pairs : list QnAPair) (i : Z) :
  o startRecording = fulfilled tt ->
  let r :=
    dispatch (ClickAnswerQuestion o)
      (mkController (mkSession PRESENTING_QUESTION None story pairs i false)
         None [] 2%nat) in
  completion r = Returned tt /\
  final r = mkController (mkSession RECORDING_ANSWER None story pairs i false)
              None [] 2%nat.
Proof.
  intros Hstart. unfold dispatch. cbn. rewrite Hstart. cbn. split; reflexivity.
Qed.

Lemma done_click_step (audio : Blob) (a story : jsstring)
    (done rest : list QnAPair) (p : QnAPair) :
  let r :=
    dispatch (ClickDoneAnswering true (answering (Some audio) a []))
      (mkController
         (mkSession RECORDING_ANSWER None story (done ++ p :: rest)
            (alength done) false)
         None [] 2%nat) in
  completion r = Returned tt /\
  final r =
    mkController
      (mkSession
         (match rest with [] => SUMMARY | _ :: _ => PRESENTING_QUESTION end)
         None story (done ++ mkQnAPair (question p) a :: rest)
         (match rest with [] => alength done | _ :: _ => alength done + 1 end)
         false)
      None [] 2%nat.
Proof.
  unfold dispatch. cbn. unfold handleStopAnswerRecording. cbn.
  rewrite write_answer_after. cbn.
  destruct rest as [|p' rest].
  - rewrite (proj2 (Z.ltb_ge _ _))
      by (unfold alength; rewrite length_app; cbn; lia).
    cbn. split; reflexivity.
  - rewrite (proj2 (Z.ltb_lt _ _))
      by (unfold alength; rewrite length_app; cbn; lia).
    cbn. split; reflexivity.
Qed.

Lemma answering_loop (audio : Blob) (story : jsstring) :
  forall (todo answers : list jsstring) (done : list QnAPair),
    todo <> [] ->
    List.length answers = List.length todo ->
    after (answerEvents audio answers)
      (mkController
         (mkSession PRESENTING_QUESTION None story (done ++ unanswered todo)
            (alength done) false)
         None [] 2%nat)
    = Some (mkController
              (mkSession SUMMARY None story
                 (done ++ zip_with mkQnAPair todo answers)
                 (alength done + alength todo - 1) false)
              None [] 2%nat).
Proof.
  induction todo as [|q todo IH]; intros answers done Hne Hlen; [congruence|].
  destruct answers as [|a answers]; [discriminate|].
  change (answerEvents audio (a :: answers))
    with (ClickAnswerQuestion (answering (Some audio) a [])
          :: ClickDoneAnswering true (answering (Some audio) a [])
          :: answerEvents audio answers).
  destruct (answer_click_step (answering (Some audio) a []) story
              (done ++ unanswered (q :: todo)) (alength done) eq_refl)
    as [Hc1 Hf1].
  rewrite (after_cons _ _ _ Hc1), Hf1.
  destruct (done_click_step audio a story done (unanswered todo)
              (mkQnAPair q [])) as [Hc2 Hf2].
  cbn [unanswered map] in Hc2, Hf2 |- *.
  rewrite (after_cons _ _ _ Hc2), Hf2. cbn [question zip_with].
  destruct todo as [|q' todo].
  - destruct answers; [|discriminate]. cbn.
    do 3 f_equal. unfold alength. cbn. lia.
  - change (match unanswered (q' :: todo) with
            | [] => SUMMARY
            | _ :: _ => PRESENTING_QUESTION
            end) with PRESENTING_QUESTION.
    change (match unanswered (q' :: todo) with
            | [] => alength done
            | _ :: _ => alength done + 1
            end) with (alength done + 1).
    specialize (IH answers (done ++ [mkQnAPair q a])).
    rewrite <- !app_assoc in IH. cbn [app] in IH.
    replace (alength (done ++ [mkQnAPair q a])) with (alength done + 1) in IH
      by (unfold alength; rewrite length_app; cbn; lia).
    rewrite IH; [| discriminate | cbn in Hlen |- *; lia].
    replace (alength done + alength (q :: q' :: todo) - 1)
      with (alength done + 1 + alength (q' :: todo) - 1)
      by (unfold alength; cbn [List.length]; lia).
    reflexivity.
Qed.

(** X22.  A whole session composes: a story transcribed as a valid
    transcript, at least one question, and as many answers as questions,
    each recorded in turn, end in [SUMMARY] with the transcript as story
    text and the questions paired with the answers in order. *)
Theorem whole_session (audio : Blob) (story : jsstring)
    (questions answers : list jsstring) :
  10 <= JS.length (trim story) ->
  questions <> [] ->
  List.length answers = List.length questions ->
  after (sessionEvents audio story questions answers) initial
  = Some (mkController
            (mkSession SUMMARY None story
               (zip_with mkQnAPair questions answers)
               (alength questions - 1) false)
            None [] 2%nat).
Proof.
  intros Hlen Hne Hanswers.
  unfold sessionEvents.
  rewrite after_cons by reflexivity.
  assert (Hstop :
    let r := dispatch (ClickStopReading true (answering (Some audio) story questions))
               (final (dispatch (ClickStartReading (answering (Some audio) story questions)) initial)) in
    completion r = Returned tt /\
    final r = mkController
                (mkSession PRESENTING_QUESTION None story (unanswered questions)
                   0 false) None [] 2%nat).
  { unfold dispatch. cbn. rewrite (long_enough_guard _ Hlen). cbn.
    destruct questions as [|q questions]; [congruence|].
    rewrite alength_cons_positive. cbn. split; reflexivity. }
  destruct Hstop as [Hc Hf]. rewrite (after_cons _ _ _ Hc), Hf.
  exact (answering_loop audio story questions answers [] Hne Hanswers).
Qed.

Lemma whole_session_witness :
  (fun c => (appState (session c), qnaPairs (session c)))
    <$> after (sessionEvents sampleBlob sampleStory sampleQuestions
                 [lit "On the mat."; lit "The bird."]) initial
  = Some (SUMMARY,
          [mkQnAPair (lit "Where did the cat sit?") (lit "On the mat.");
           mkQnAPair (lit "What did the cat look at?") (lit "The bird.")]).
Proof.
  rewrite (whole_session sampleBlob sampleStory sampleQuestions
             [lit "On the mat."; lit "The bird."]).
  - reflexivity.
  - vm_compute. discriminate.
  - discriminate.
  - reflexivity.
Defined.

(** ** Concrete runs of copy, share and the notice timer *)

Lemma copy_sets_copied_flag_witness :
  let r := run (handleCopyToClipboard sampleStory []) storyOracle initial in
  copied (session (final r)) = true /\
  timers (final r) = [(1%nat, ClearCopied)].
Proof.
  pose proof (copy_sets_copied_flag initial storyOracle sampleStory []
                eq_refl) as H.
  cbn zeta in H. destruct H as (_ & _ & Hs & _ & Htm).
  split; [exact (f_equal copied Hs) | exact Htm].
Defined.

Lemma copy_flag_expires_witness :
  let c := final (run (handleCopyToClipboard sampleStory []) storyOracle
                    initial) in
  copied (session (final (dispatch (TimerFires 1 false silent) c))) = false.
Proof.
  pose proof (copy_flag_expires initial storyOracle silent sampleStory []
                false eq_refl) as H.
  cbn zeta in H. destruct H as (_ & _ & Hs & _).
  exact (f_equal copied Hs).
Defined.

Lemma copy_rejection_is_dropped_witness :
  final (run (handleCopyToClipboard sampleStory [])
           (refusing (lit "NotAllowedError")) initial) = initial.
Proof.
  exact (proj2 (copy_rejection_is_dropped initial
                  (refusing (lit "NotAllowedError")) sampleStory []
                  (lit "NotAllowedError") eq_refl)).
Defined.

Lemma share_completed_witness :
  final (run (handleShare true sampleStory []) storyOracle initial) = initial.
Proof.
  exact (proj2 (proj2 (share_completed initial storyOracle sampleStory []
                         eq_refl))).
Defined.

Lemma share_cancelled_witness :
  let r := run (handleShare true sampleStory [])
             (refusing (lit "AbortError")) initial in
  appState (session (final r)) = IDLE /\
  error (session (final r)) = Some (lit "Sharing was cancelled.").
Proof.
  pose proof (share_cancelled initial (refusing (lit "AbortError"))
                sampleStory [] (lit "AbortError") eq_refl) as H.
  cbn zeta in H. destruct H as (_ & Hs & _).
  split; [exact (f_equal appState Hs) | exact (f_equal error Hs)].
Defined.

Lemma staleNotice_reached : after toStaleNotice initial = Some staleNoticeState.
Proof. vm_compute. reflexivity. Qed.

Lemma notice_timer_clears_any_error_witness :
  let r := dispatch (TimerFires 2 false silent) staleNoticeState in
  reachable staleNoticeState /\
  appState (session staleNoticeState) = ERROR /\
  error (session staleNoticeState) = Some (lit "Permission denied") /\
  appState (session (final r)) = ERROR /\
  error (session (final r)) = None.
Proof.
  cbn zeta.
  pose proof (notice_timer_clears_any_error staleNoticeState 2 false silent
                eq_refl) as H.
  cbn zeta in H. destruct H as (_ & _ & Hs & _).
  split; [exact (after_reachable toStaleNotice _ staleNotice_reached)|].
  split; [reflexivity|]. split; [reflexivity|].
  split; [exact (f_equal appState Hs) | exact (f_equal error Hs)].
Defined.

(** ** The 60-second timer *)



(** ** Sessions whose handlers do not overlap *)

(** X24.  In a session whose handlers do not overlap, in the state after
    any events and in every state the next handler shows,
    [currentQuestionIndex] is a position of [qnaPairs] when [qnaPairs] is
    non-empty and is 0 while it is empty, and the states that show or
    record an answer occur only with a non-empty [qnaPairs]. *)
Theorem serial_index_within_bounds (history : list Event) (c : Controller)
    (e : Event) :
  after history initial = Some c ->
  Forall
    (fun c' =>
       let s := session c' in
       (qnaPairs s <> [] ->
        0 <= currentQuestionIndex s < alength (qnaPairs s)) /\
       (qnaPairs s = [] -> currentQuestionIndex s = 0) /\
       (answer_bearing (appState s) = true -> qnaPairs s <> []))
    (c :: visited (dispatch e c)).
Proof.
  apply serial_states. clear c. intros c [Hidx _ _ Hanswer _] _.
  cbn. unfold index_ok in Hidx. repeat split.
  - destruct (qnaPairs (session c)); [congruence | lia].
  - destruct (qnaPairs (session c)); [congruence | lia].
  - intros E. rewrite E in Hidx. exact Hidx.
  - exact Hanswer.
Qed.

Lemma serial_index_within_bounds_witness :
  let c := default initial (after toFirstAnswer initial) in
  appState (session c) = RECORDING_ANSWER /\
  0 <= currentQuestionIndex (session c) < alength (qnaPairs (session c)).
Proof.
  cbn zeta. split; [reflexivity|].
  pose proof (serial_index_within_bounds toFirstAnswer
                (default initial (after toFirstAnswer initial))
                ClickStartOver eq_refl) as Hall.
  apply Forall_cons in Hall as [[Hin _] _].
  apply Hin. discriminate.
Defined.

(** X25.  In a session whose handlers do not overlap, from a state that
    records the answer to question [i], a transcribed answer leads to
    [PRESENTING_QUESTION] with index [i + 1] when [i] is not the last
    index and to [SUMMARY] when it is; and after any further events
    without a click on a reset button the index is not below [i]. *)
Theorem serial_answer_advances (history : list Event) (c : Controller)
    (o : Oracle) (audioBlob : Blob) (answerText : jsstring) :
  after history initial = Some c ->
  appState (session c) = RECORDING_ANSWER ->
  o stopRecording = fulfilled (Some audioBlob) ->
  o (transcribeAudio audioBlob) = fulfilled answerText ->
  let i := currentQuestionIndex (session c) in
  let n := alength (qnaPairs (session c)) in
  let r := dispatch (ClickDoneAnswering true o) c in
  completion r = Returned tt /\
  (i < n - 1 ->
   appState (session (final r)) = PRESENTING_QUESTION /\
   currentQuestionIndex (session (final r)) = i + 1) /\
  (i = n - 1 ->
   appState (session (final r)) = SUMMARY /\
   currentQuestionIndex (session (final r)) = i) /\
  (forall events c',
     Forall (fun e => is_reset e = false) events ->
     after events c = Some c' ->
     i <= currentQuestionIndex (session c')).
Proof.
  intros Hafter Hst Hb Ht.
  assert (Hinv : invariant c)
    by (eapply after_invariant; [exact initial_invariant | exact Hafter]).
  cbn zeta. split; [|split; [|split]].
  4: { intros events c' Hev Hc'.
       exact (after_monotone events c c' Hinv Hev Hc'). }
  all: pose proof (index_ok_range _ (inv_index c Hinv)) as Hrange.
  all: pose proof (inv_answer c Hinv) as Hne; rewrite Hst in Hne.
  all: specialize (Hrange (Hne eq_refl)).
  all: unfold dispatch, listener; rewrite Hst; cbn [oracle].
  all: destruct c as [[a er st q i cp] ref tm nx]; cbn in Hrange |- *.
  all: rewrite Hb; cbn; rewrite Ht; cbn.
  all: rewrite (write_answer_in_range i answerText q Hrange); cbn.
  - destruct (i <? alength q - 1); reflexivity.
  - intros Hlt. apply Z.ltb_lt in Hlt. rewrite Hlt. cbn. auto.
  - intros Heq. rewrite (proj2 (Z.ltb_ge i (alength q - 1))) by lia. cbn. auto.
Qed.

Lemma serial_answer_advances_witness :
  let c := default initial (after toFirstAnswer initial) in
  let r := dispatch (ClickDoneAnswering true answerOracle) c in
  appState (session (final r)) = PRESENTING_QUESTION /\
  currentQuestionIndex (session (final r)) = 1.
Proof.
  refine (proj1 (proj2 (serial_answer_advances toFirstAnswer _ answerOracle
                   sampleBlob sampleAnswer _ _ _ _)) _);
    first [ reflexivity | vm_compute; reflexivity ].
Defined.


